(** * mongoose-patch-history: a shallow embedding of [lib/index.js]

    The plugin records, for every save of a document, the JSON patch between
    the last snapshot of the document and its current data, and rolls a
    document back by replaying stored patches.  The embedding follows the
    source function by function.  The three libraries the plugin calls
    (fast-json-patch, lodash, mongoose) are modelled in modules of their own,
    on the fragment of their behaviour the plugin relies on. *)

From stdpp Require Import gmap strings list fin_maps sorting.
From Stdlib Require Import ZArith Lia Ascii.

Set Warnings "-register-all,-clear-no-such-hyp".
Set Default Proof Using "Type".

(* ===================================================================== *)
(** * JavaScript values *)
(* ===================================================================== *)

(** Plain data as the plugin sees it: what [toObject] returns and what a
    patch operation carries.  Objects are finite maps from property names to
    values; [undefined] is the absence of a property ([None] at a lookup).
    Numbers are the integers, taken in the range a double holds exactly;
    arrays, dates and object ids as values of their own are not part of the
    model. *)
Inductive json :=
| JNull
| JBool (b : bool)
| JNum (n : Z)
| JStr (s : string)
| JObj (fields : gmap string json).

Abbreviation object := (gmap string json).

(** [typeof v == "object" && v != null] *)
Definition is_object (v : json) : bool :=
  match v with JObj _ => true | _ => false end.

(** JavaScript truthiness, as used by [!x] and [x || y]. *)
Definition truthy (v : option json) : bool :=
  match v with
  | None | Some JNull => false
  | Some (JBool b) => b
  | Some (JNum n) => negb (n =? 0)%Z
  | Some (JStr s) => negb (String.eqb s "")
  | Some (JObj _) => true
  end.

(** [a || b] *)
Definition js_or (a : option json) (b : json) : json :=
  match a with
  | Some v => if truthy a then v else b
  | None => b
  end.

(** [===] on values that are not both objects. *)
Definition strict_eqb (a b : json) : bool :=
  match a, b with
  | JNull, JNull => true
  | JBool x, JBool y => Bool.eqb x y
  | JNum x, JNum y => (x =? y)%Z
  | JStr x, JStr y => String.eqb x y
  | _, _ => false
  end.

(** The integers a double holds exactly and apart from one another. *)
Definition safe_integer (n : Z) : bool :=
  (- 2 ^ 53 <=? n)%Z && (n <=? 2 ^ 53)%Z.

(** Two values of the same type, at every key both have: a string against
    a string, a number against a number, and so on, as two states of a
    document under one schema are.  On such values [!=], [!==] and the
    comparison of the integers of the model agree. *)
Fixpoint same_type (a b : json) {struct a} : bool :=
  match a, b with
  | JNull, JNull | JBool _, JBool _ | JStr _, JStr _ => true
  | JNum x, JNum y => safe_integer x && safe_integer y
  | JObj m, JObj n =>
      map_fold (λ key v acc,
        match n !! key with
        | Some w => same_type v w
        | None => true
        end && acc) true m
  | _, _ => false
  end.

Fixpoint jsize (v : json) : nat :=
  match v with
  | JObj m => S (map_fold (λ _ w acc, jsize w + acc) 0 m)
  | _ => 1
  end.

(** Errors a promise of the plugin can reject with.  [RollbackError] is the
    plugin's own (index.js, lines 9-15); the others come from the libraries. *)
Variant error :=
| RollbackError (message : string)
| ValidationError (path : string)
| JsonPatchError (name : string)
| TypeError (message : string)
| MongoError (message : string).

Inductive result (A : Type) :=
| Ok (a : A)
| Err (e : error).
Arguments Ok {A} a.
Arguments Err {A} e.

Definition rbind {A B} (r : result A) (k : A → result B) : result B :=
  match r with
  | Ok a => k a
  | Err e => Err e
  end.

Notation "x ←ᵣ r ; k" := (rbind r (λ x, k))
  (at level 20, r at level 100, k at level 200, right associativity,
   format "x  ←ᵣ  r ;  '/' k").

(* ===================================================================== *)
(** * fast-json-patch *)
(* ===================================================================== *)

Module jsonpatch.

(** A patch operation [{op, path, value}].  The path is kept as the list of
    its reference tokens, each escaped as the library stores it; [pointer]
    joins them into the JSON-pointer string (["/title"]). *)
Variant operation :=
| Add (path : list string) (value : json)
| Replace (path : list string) (value : json)
| Remove (path : list string).

Definition path (o : operation) : list string :=
  match o with Add p _ | Replace p _ | Remove p => p end.

Definition op (o : operation) : string :=
  match o with Add _ _ => "add" | Replace _ _ => "replace" | Remove _ => "remove" end.

Fixpoint escapePathComponent (str : string) : string :=
  match str with
  | EmptyString => EmptyString
  | String c rest =>
      (if Ascii.eqb c "~"%char then "~0"
       else if Ascii.eqb c "/"%char then "~1"
       else String c EmptyString) +:+ escapePathComponent rest
  end.

Fixpoint contains (c : ascii) (str : string) : bool :=
  match str with
  | EmptyString => false
  | String d rest => Ascii.eqb d c || contains c rest
  end.

(** [str.replace(/~1/g, '/')] and [str.replace(/~0/g, '~')] *)
Fixpoint replace_tilde (digit char : ascii) (str : string) : string :=
  match str with
  | String c1 (String c2 rest as tail) =>
      if Ascii.eqb c1 "~"%char && Ascii.eqb c2 digit
      then String char (replace_tilde digit char rest)
      else String c1 (replace_tilde digit char tail)
  | _ => str
  end.

(** What [apply] makes of a token before it uses it as a property name:
    [if (key && key.indexOf('~') != -1)
       key = key.replace(/~1/g, '/').replace(/~0/g, '~')]. *)
Definition unescapePathComponent (key : string) : string :=
  if contains "~"%char key
  then replace_tilde "0"%char "~"%char (replace_tilde "1"%char "/"%char key)
  else key.

(** A key that escaping leaves as it is: no [~] and no [/]. *)
Definition plain_key (key : string) : bool :=
  negb (contains "~"%char key) && negb (contains "/"%char key).

(** A value all of whose keys, at every depth, are plain. *)
Fixpoint plain (v : json) : bool :=
  match v with
  | JObj fields =>
      map_fold (λ key w acc, plain_key key && plain w && acc) true fields
  | _ => true
  end.


(** [_generate(mirror, obj, patches, path)]: the old keys are visited from
    the last to the first (removals, replacements and nested differences),
    then, unless no key was deleted and both objects have as many keys, the
    new keys from the first to the last (additions).  The library
    enumerates the keys of an object in the order they were inserted; a
    finite map does not record that order, so within each of the two passes
    the operations come out in the map's order.  The operations of one diff
    touch different properties, and what is proved about a diff of more than
    one operation is stated up to the order of the list. *)
Fixpoint _generate (mirror obj : json) (path : list string) {struct mirror}
  : list operation :=
  match mirror, obj with
  | JObj old, JObj new =>
      let changes :=
        map_fold (λ key oldVal patches,
          patches ++
          match new !! key with
          | Some newVal =>
              if is_object oldVal && is_object newVal
              then _generate oldVal newVal (path ++ [escapePathComponent key])
              else if strict_eqb oldVal newVal then []
              else [Replace (path ++ [escapePathComponent key]) newVal]
          | None => [Remove (path ++ [escapePathComponent key])]
          end) [] old in
      let deleted := negb (bool_decide (dom old ⊆ dom new)) in
      if negb deleted && (size new =? size old) then changes
      else
        changes ++
        map_fold (λ key newVal patches,
          match old !! key with
          | None => [Add (path ++ [escapePathComponent key]) newVal]
          | Some _ => []
          end ++ patches) [] new
  | _, _ => []
  end.

(** What one old key, and one new key, contributes to the patch. *)
Definition change (new : object) (path : list string) (kv : string * json)
  : list operation :=
  match new !! kv.1 with
  | Some newVal =>
      if is_object kv.2 && is_object newVal
      then _generate kv.2 newVal (path ++ [escapePathComponent kv.1])
      else if strict_eqb kv.2 newVal then []
      else [Replace (path ++ [escapePathComponent kv.1]) newVal]
  | None => [Remove (path ++ [escapePathComponent kv.1])]
  end.

Definition addition (old : object) (path : list string) (kv : string * json)
  : list operation :=
  match old !! kv.1 with
  | None => [Add (path ++ [escapePathComponent kv.1]) kv.2]
  | Some _ => []
  end.

(** The operation with its path below [p]. *)
Definition below (p : list string) (o : operation) : operation :=
  match o with
  | Add q v => Add (p ++ q) v
  | Replace q v => Replace (p ++ q) v
  | Remove q => Remove (p ++ q)
  end.

(** [jsonpatch.compare(tree1, tree2)] *)
Definition compare (tree1 tree2 : object) : list operation :=
  _generate (JObj tree1) (JObj tree2) [].

(** [objOps[op].call(patch, obj, key)]: the assignment or the deletion
    itself.  [replace] assigns like [add]; deleting a property that is not
    there does nothing. *)
Definition objOps (this : operation) (obj : object) (key : string) : object :=
  match this with
  | Add _ value | Replace _ value => <[key := value]> obj
  | Remove _ => delete key obj
  end.

Definition is_add (this : operation) : bool :=
  match this with Add _ _ => true | _ => false end.

(** The error of the validator for a path that does not resolve. *)
Definition unresolved (this : operation) : error :=
  match this with
  | Add _ _ => JsonPatchError "OPERATION_PATH_CANNOT_ADD"
  | _ => JsonPatchError "OPERATION_PATH_UNRESOLVABLE"
  end.

(** The walk of [apply] down the tokens of one operation's path, with
    validation on (the plugin passes [true]).  At each token the validator
    looks the token up as it stands in the path, still escaped
    ([obj[key] === undefined]); only then is the token unescaped and used as
    the property name.  A token that is not the last must be there; at the
    last one [add] may name a new property, [replace] and [remove] may not.
    Below a value that is not an object no property is defined: reading one
    of [null] throws, an [add] of one more level to a string, number or
    boolean passes the validator and its assignment is ignored.  The source
    updates [obj] in place, the model rebuilds the objects on the way back.
    Operations on the root (no token) are not produced by [compare]; the
    model does not cover them and answers them with an error.  A property
    is looked up among the own properties of an object: keys are taken to
    be other than the names every JavaScript object inherits
    ([constructor], [toString], [__proto__] and the like). *)
Fixpoint walk (this : operation) (obj : object) (keys : list string)
  : result object :=
  match keys with
  | [] => Err (JsonPatchError "OPERATION_PATH_INVALID")
  | [token] =>
      if bool_decide (is_Some (obj !! token)) || is_add this
      then Ok (objOps this obj (unescapePathComponent token))
      else Err (unresolved this)
  | token :: rest =>
      match obj !! token with
      | None => Err (unresolved this)
      | Some _ =>
          match obj !! unescapePathComponent token with
          | Some (JObj child) =>
              child' ←ᵣ walk this child rest;
              Ok (<[unescapePathComponent token := JObj child']> obj)
          | Some JNull | None =>
              Err (TypeError "Cannot read property of null or undefined")
          | Some _ =>
              match rest with
              | [_] => if is_add this then Ok obj else Err (unresolved this)
              | _ => Err (unresolved this)
              end
          end
      end
  end.

(** [jsonpatch.apply(tree, patches, true)]: the operations in array order,
    the first invalid one throws. *)
Fixpoint apply (tree : object) (patches : list operation) : result object :=
  match patches with
  | [] => Ok tree
  | patch :: rest =>
      tree' ←ᵣ walk patch tree (path patch);
      apply tree' rest
  end.

(** The round trip of the diff engine at one old value with plain keys:
    applying what [_generate] emits for it and any new object with plain
    keys gives that new object. *)
Definition roundtrips (mirror : json) : Prop :=
  ∀ old new, mirror = JObj old →
    plain (JObj old) = true → plain (JObj new) = true →
    apply old (_generate (JObj old) (JObj new) []) = Ok new.

End jsonpatch.

(* ===================================================================== *)
(** * lodash *)
(* ===================================================================== *)

Module lodash.

(** The value [_.merge] leaves at a key whose source value is [srcValue]
    and whose destination value is [objValue]: a source object is merged
    recursively into the destination object (into a fresh one when the
    destination is not an object); any other source value is assigned. *)
Fixpoint mergeValue (objValue : option json) (srcValue : json) {struct srcValue}
  : json :=
  match srcValue with
  | JObj source =>
      let target := match objValue with Some (JObj o) => o | _ => ∅ end in
      JObj (map_fold (λ key v acc, <[key := mergeValue (target !! key) v]> acc)
                     target source)
  | _ => srcValue
  end.

(** [_.merge(object, source)].  The destination is mutated and returned; a
    destination that is [undefined] is replaced by a fresh object. *)
Definition merge (target : option object) (source : object) : object :=
  match mergeValue (JObj <$> target) (JObj source) with
  | JObj merged => merged
  | _ => ∅
  end.

(** [_.omit(object, key)] *)
Definition omit (o : json) (key : string) : json :=
  match o with
  | JObj fields => JObj (delete key fields)
  | _ => JObj ∅
  end.

End lodash.

(* ===================================================================== *)
(** * mongoose *)
(* ===================================================================== *)

(** Object ids are totally ordered and handed out in increasing order; dates
    are milliseconds. *)
Abbreviation ObjectId := nat.
Abbreviation Date := nat.

(** A document of the patch collection, as [createPatchSchema] declares it:
    [date], [ops], [ref] and the included fields. *)
Module Patch.
Record t := {
  _id : ObjectId;
  date : Date;
  ops : list jsonpatch.operation;
  ref : ObjectId;
  included : object
}.
End Patch.

(** An in-memory document instance.  [_doc] holds the values of the schema
    paths, [_original] is the snapshot the plugin keeps on the instance
    ([undefined] until the first [init] or [save]), [locals] are the other
    properties set on the instance (such as [_user] in the test suite). *)
Module Document.
Record t := {
  _id : ObjectId;
  isNew : bool;
  _doc : object;
  _original : option object;
  locals : object
}.
End Document.

Module mongoose.

Record Timestamps := {
  createdAt : option string;
  updatedAt : option string
}.

(** What the plugin and [Document.set] read of a schema: the declared paths
    (each holds a whole value; [set] on a path replaces it), the virtuals
    with a setter that stores its argument in a property of the instance,
    and the options [timestamps] and [versionKey]. *)
Record Schema := {
  paths : gset string;
  virtuals : gmap string string;
  timestamps : option Timestamps;
  versionKey : option string
}.

(** The database behind one connection: the patch model's collection in
    insertion order, the document model's collection, the id generator and
    the clock. *)
Record Db := {
  patches : list Patch.t;
  documents : gmap ObjectId object;
  next_oid : ObjectId;
  now : Date
}.

(** The order a collection filled by [create] is in: ids strictly
    increasing and below the generator, dates ascending and not in the
    future. *)
Definition wf_db (db : Db) : Prop :=
  StronglySorted (λ p q, Patch._id p < Patch._id q) (patches db) ∧
  StronglySorted (λ p q, Patch.date p ≤ Patch.date q) (patches db) ∧
  Forall (λ p, Patch._id p < next_oid db ∧ Patch.date p ≤ now db) (patches db).

#[global] Instance wf_db_dec db : Decision (wf_db db).
Proof. unfold wf_db. apply _. Defined.

Definition tick (ms : nat) (db : Db) : Db :=
  {| patches := patches db; documents := documents db;
     next_oid := next_oid db; now := now db + ms |}.

(** ** Queries on the patch model *)

(** [Model.find(conditions)] and [Model.count(conditions)]; the conditions
    are given as a decidable predicate. *)
Definition find (P : Patch.t → Prop) `{!∀ p, Decision (P p)} (db : Db)
  : list Patch.t :=
  filter P (patches db).

Definition count (P : Patch.t → Prop) `{!∀ p, Decision (P p)} (db : Db) : nat :=
  length (filter P (patches db)).

(** [query.sort({date: 1})]: ascending by date; records of equal date keep
    their order. *)
Fixpoint insert_by_date (p : Patch.t) (sorted : list Patch.t) : list Patch.t :=
  match sorted with
  | [] => [p]
  | q :: rest =>
      if decide (Patch.date p ≤ Patch.date q) then p :: sorted
      else q :: insert_by_date p rest
  end.

Definition sort_date (l : list Patch.t) : list Patch.t :=
  foldr insert_by_date [] l.

(** [patch.remove()]: deletes the record of that [_id]. *)
Definition remove_patch (patch : Patch.t) (db : Db) : Db :=
  {| patches := filter (λ p, Patch._id p ≠ Patch._id patch) (patches db);
     documents := documents db; next_oid := next_oid db; now := now db |}.

(** What [Model.create] is given by the plugin: [{ops, ref}] and the
    included fields that are not [undefined]. *)
Record PatchData := {
  data_ops : list jsonpatch.operation;
  data_ref : ObjectId;
  data_included : object
}.

(** [type.type === String], for a path declared as [type]. *)
Definition is_String (type : json) : bool :=
  match type with
  | JObj t => match t !! "type" with Some (JStr "String") => true | _ => false end
  | _ => false
  end.

(** Whether a path of the patch schema, declared as [type], has a value
    after defaults are applied: [date] has a default, an empty array does
    not count for [ops], [null] and [undefined] do not count for the
    others, and neither does the empty string for a [String]. *)
Definition has_value (type : json) (data : PatchData) (name : string) : bool :=
  if String.eqb name "date" then true
  else if String.eqb name "ref" then true
  else if String.eqb name "ops" then
    match data_ops data with [] => false | _ => true end
  else match data_included data !! name with
       | None | Some JNull => false
       | Some (JStr s) => negb (is_String type && String.eqb s "")
       | Some _ => true
       end.

(** [type.required], for a path declared as [type]. *)
Definition required (type : json) : bool :=
  match type with
  | JObj t => truthy (t !! "required")
  | _ => false
  end.

(** The required paths of the schema definition [def] that are missing. *)
Definition missing (def : object) (data : PatchData) : list string :=
  (filter (λ nt, required nt.2 && negb (has_value nt.2 data nt.1) = true)
          (map_to_list def)).*1.

(** The record [Model.create] inserts: a fresh [_id], the default [date]. *)
Definition created (db : Db) (data : PatchData) : Patch.t :=
  {| Patch._id := next_oid db;
     Patch.date := now db;
     Patch.ops := data_ops data;
     Patch.ref := data_ref data;
     Patch.included := data_included data |}.

Definition inserted (patch : Patch.t) (db : Db) : Db :=
  {| patches := patches db ++ [patch]; documents := documents db;
     next_oid := S (next_oid db); now := now db |}.

(** [Model.create(data)]: validation against the schema, then the insert. *)
Definition create (def : object) (data : PatchData) (db : Db)
  : result Patch.t * Db :=
  match missing def data with
  | (_ :: _) as names => (Err (ValidationError (String.concat ", " names)), db)
  | [] => (Ok (created db data), inserted (created db data) db)
  end.

(** ** Documents *)

Definition oid_json (i : ObjectId) : json := JNum (Z.of_nat i).

(** [doc.toObject()]: the values of the paths and [_id]. *)
Definition toObject (this : Document.t) : object :=
  <["_id" := oid_json (Document._id this)]> (Document._doc this).

(** [doc[key]]: the id (which the getter [id] gives as a string), the flag
    [isNew], the value of a declared path, or another property set on the
    instance. *)
Definition get (schema : Schema) (this : Document.t) (key : string)
  : option json :=
  if decide (key = "_id") then Some (oid_json (Document._id this))
  else if decide (key = "id") then Some (oid_json (Document._id this))
  else if decide (key = "isNew") then Some (JBool (Document.isNew this))
  else if decide (key ∈ paths schema) then Document._doc this !! key
  else Document.locals this !! key.

(** [doc.set(obj)] in strict mode: a key that is a path is assigned, a key
    that is a virtual runs its setter, any other key is dropped.  The value
    is stored as it is given: the schema of the model declares no types, as
    if every path were [Mixed], and a cast to a declared type is not part of
    the model. *)
Definition set (schema : Schema) (this : Document.t) (obj : object)
  : Document.t :=
  {| Document._id := Document._id this;
     Document.isNew := Document.isNew this;
     Document._doc :=
       filter (λ kv, kv.1 ∈ paths schema) obj ∪ Document._doc this;
     Document._original := Document._original this;
     Document.locals :=
       map_fold (λ key val acc,
         if decide (key ∈ paths schema) then acc
         else match virtuals schema !! key with
              | Some prop => <[prop := val]> acc
              | None => acc
              end) (Document.locals this) obj |}.

(** [new Model(obj)] *)
Definition new (schema : Schema) (obj : object) (db : Db) : Document.t * Db :=
  (set schema {| Document._id := next_oid db; Document.isNew := true;
                 Document._doc := ∅; Document._original := None;
                 Document.locals := ∅ |} obj,
   {| patches := patches db; documents := documents db;
      next_oid := S (next_oid db); now := now db |}).

Definition or_name (name : option string) (dflt : string) : string :=
  match name with
  | Some s => if String.eqb s "" then dflt else s
  | None => dflt
  end.

(** The housekeeping of a save once the pre-save hooks have passed: the
    timestamps and the version key are maintained, the document is written,
    and it is no longer new. *)
Definition stamp (schema : Schema) (time : Date) (this : Document.t) : object :=
  let doc := Document._doc this in
  let doc :=
    match timestamps schema with
    | Some ts =>
        let created := or_name (createdAt ts) "createdAt" in
        let updated := or_name (updatedAt ts) "updatedAt" in
        <[updated := JNum (Z.of_nat time)]>
          (match doc !! created with
           | Some _ => doc
           | None => <[created := JNum (Z.of_nat time)]> doc
           end)
    | None => doc
    end in
  match versionKey schema with
  | Some key => if Document.isNew this then <[key := JNum 0]> doc else doc
  | None => doc
  end.

Definition write (schema : Schema) (this : Document.t) (db : Db)
  : Document.t * Db :=
  let saved := {| Document._id := Document._id this;
                  Document.isNew := false;
                  Document._doc := stamp schema (now db) this;
                  Document._original := Document._original this;
                  Document.locals := Document.locals this |} in
  (saved,
   {| patches := patches db;
      documents := <[Document._id this := toObject saved]> (documents db);
      next_oid := next_oid db; now := now db |}).

Definition delete_document (this : Document.t) (db : Db) : Db :=
  {| patches := patches db;
     documents := delete (Document._id this) (documents db);
     next_oid := next_oid db; now := now db |}.

End mongoose.

(* ===================================================================== *)
(** * The plugin: [patchHistory(schema, opts)] *)
(* ===================================================================== *)

Section patchHistory.
Import mongoose.

Variable schema : Schema.
Variable opts : option object.

Definition defaultOptions : object :=
  {[ "includes" := JObj ∅; "removePatches" := JBool true ]}.

(** [_.merge({}, defaultOptions, opts)] *)
Definition options : object :=
  let merged := lodash.merge (Some ∅) defaultOptions in
  match opts with
  | Some o => lodash.merge (Some merged) o
  | None => merged
  end.

(** [options.includes], the object [_.each] iterates over. *)
Definition includes (options : object) : object :=
  match options !! "includes" with
  | Some (JObj incl) => incl
  | _ => ∅
  end.

Definition createPatchSchema (options : object) : object :=
  let def : object :=
    {[ "date" := JObj {[ "type" := JStr "Date"; "required" := JBool true;
                         "default" := JStr "Date.now" ]};
       "ops" := JObj {[ "type" := JStr "[]"; "required" := JBool true ]};
       "ref" := JObj {[ "type" := JStr "ObjectId"; "required" := JBool true;
                        "index" := JBool true ]} ]} in
  map_fold (λ name type def, <[name := lodash.omit type "from"]> def)
           def (includes options).

(** [schema.methods.data]: [toObject] without [_id], the timestamp fields
    and the version key. *)
Definition data (this : Document.t) : object :=
  let ret := delete "_id" (toObject this) in
  let ret :=
    match timestamps schema with
    | Some ts =>
        delete (or_name (updatedAt ts) "updatedAt")
               (delete (or_name (createdAt ts) "createdAt") ret)
    | None => ret
    end in
  match versionKey schema with
  | Some key => delete key ret
  | None => ret
  end.

(** The keys [data] strips, and the paths it keeps track of. *)
Definition hidden : gset string :=
  {[ "_id" ]} ∪
  match timestamps schema with
  | Some ts => {[ or_name (createdAt ts) "createdAt";
                  or_name (updatedAt ts) "updatedAt" ]}
  | None => ∅
  end ∪
  match versionKey schema with
  | Some key => {[ key ]}
  | None => ∅
  end.

Definition tracked : gset string := paths schema ∖ hidden.

(** The names [model.db.model] takes are strings; given anything else it
    throws, and with it every use of [patches]. *)
Definition is_string (v : json) : bool :=
  match v with JStr _ => true | _ => false end.

(** [getPatchModel]: the name of the patch model, registered on the
    connection when it is not yet; [modelNames] is [model.db.modelNames()]
    and the result pairs the registry afterwards with the name looked up.
    A name that is not a string registers nothing. *)
Definition getPatchModel (model_modelName : string) (modelNames : list json)
  : list json * json :=
  let modelName :=
    js_or (options !! "modelName") (JStr (model_modelName +:+ "Patches")) in
  (if existsb (strict_eqb modelName) modelNames || negb (is_string modelName)
   then modelNames
   else modelNames ++ [modelName],
   modelName).

(** The patch model can be had: [options.modelName] is falsy or a string. *)
Definition registrable : bool :=
  is_string (js_or (options !! "modelName") (JStr "Patches")).

(** [snapshot], run after [init] and after [save]. *)
Definition snapshot (this : Document.t) : Document.t :=
  {| Document._id := Document._id this;
     Document.isNew := Document.isNew this;
     Document._doc := Document._doc this;
     Document._original := Some (data this);
     Document.locals := Document.locals this |}.

(** [schema.pre('remove', ...)] *)
Definition pre_remove (db : Db) (this : Document.t) : result unit * Db :=
  if negb (truthy (options !! "removePatches")) then (Ok (), db)
  else
    let patches := find (λ p, Patch.ref p = Document._id this) db in
    (Ok (), foldl (λ db patch, remove_patch patch db) db patches).

(** [type.from || name], the property an included field is read from. *)
Definition source (type : json) (name : string) : string :=
  match type with
  | JObj t =>
      match js_or (t !! "from") (JStr name) with
      | JStr prop => prop
      | _ => name
      end
  | _ => name
  end.

(** The patch data of the pre-save hook: [{ops, ref}] and, for each
    included field, [this[type.from || name]].  The included fields are
    kept apart from [ops] and [ref]: an included field that is itself named
    [ops], [ref], [date] or [_id] would take the place of that field of the
    record, which the record type of the model does not express. *)
Definition assemble (this : Document.t) (ops : list jsonpatch.operation)
  : PatchData :=
  {| data_ops := ops; data_ref := Document._id this;
     data_included :=
       map_imap (λ name type, get schema this (source type name))
                (includes options) |}.

(** The types a field of a mongoose schema is declared with, by name. *)
Definition SchemaTypes : list string :=
  ["String"; "Number"; "Date"; "Buffer"; "Boolean"; "Mixed"; "ObjectId";
   "Array"].

(** An included field the patch schema can be built with: an object whose
    [type] is one of these types.  With any other definition
    [model.db.model] throws. *)
Definition declared (type : json) : bool :=
  match type with
  | JObj t =>
      match t !! "type" with
      | Some (JStr name) => bool_decide (name ∈ SchemaTypes)
      | _ => false
      end
  | _ => false
  end.

Definition valid_includes : bool :=
  map_fold (λ _ type acc, declared type && acc) true (includes options).


(** The baseline of the diff: [this.isNew ? {} : this._original]. *)
Definition baseline (this : Document.t) : option object :=
  if Document.isNew this then Some ∅ else Document._original this.

(** [schema.pre('save', ...)] *)
Definition pre_save (db : Db) (this : Document.t) : result unit * Db :=
  match baseline this with
  | None => (Err (TypeError "Cannot convert undefined or null to object"), db)
  | Some before =>
      match jsonpatch.compare before (data this) with
      | [] => (Ok (), db)
      | ops =>
          match create (createPatchSchema options) (assemble this ops) db with
          | (Ok _, db') => (Ok (), db')
          | (Err e, db') => (Err e, db')
          end
      end
  end.

(** The patch a save appends: none when the diff is empty. *)
Definition appended (db : Db) (this : Document.t) (before : object)
  : list Patch.t :=
  match jsonpatch.compare before (data this) with
  | [] => []
  | ops => [created db (assemble this ops)]
  end.

(** ** The document life cycle with the hooks installed *)

(** [doc.save()]: the pre-save hook, the write, the post-save hook.  The
    result is the settled promise, the database and the instance.  [answer]
    is what the database answers the write of the document with: nothing, or
    the error it rejects the write with (a duplicate key, a connection that
    is lost); the post-save hook runs after a write that succeeded. *)
Definition saving (answer : option error) (db : Db) (this : Document.t)
  : result Document.t * Db * Document.t :=
  match pre_save db this with
  | (Err e, db') => (Err e, db', this)
  | (Ok _, db') =>
      match answer with
      | Some e => (Err e, db', this)
      | None =>
          let written := write schema this db' in
          let saved := snapshot written.1 in
          (Ok saved, written.2, saved)
      end
  end.

(** A save whose write the database accepts. *)
Definition save (db : Db) (this : Document.t)
  : result Document.t * Db * Document.t :=
  saving None db this.

(** [doc.remove()] *)
Definition remove (db : Db) (this : Document.t) : result Document.t * Db :=
  match pre_remove db this with
  | (Err e, db') => (Err e, db')
  | (Ok _, db') => (Ok this, delete_document this db')
  end.

(** A document loaded from the database: [init], then the post-init hook. *)
Definition init (_id : ObjectId) (raw : object) : Document.t :=
  snapshot {| Document._id := _id; Document.isNew := false;
              Document._doc := delete "_id" raw;
              Document._original := None; Document.locals := ∅ |}.

Definition findById (db : Db) (_id : ObjectId) : option Document.t :=
  init _id <$> documents db !! _id.

(** [Model.create(obj)] *)
Definition Model_create (obj : object) (db : Db)
  : result Document.t * Db * Document.t :=
  let created := new schema obj db in
  save created.2 created.1.

(** The replay of [rollback]: [patches.forEach(patch =>
    jsonpatch.apply(state, patch.ops, true))]. *)
Fixpoint replay (state : object) (patches : list Patch.t) : result object :=
  match patches with
  | [] => Ok state
  | patch :: rest =>
      state' ←ᵣ jsonpatch.apply state (Patch.ops patch);
      replay state' rest
  end.

(** [schema.methods.rollback].  The result is the settled promise, the
    database, the instance and the caller's [data] object afterwards;
    [answer] is the answer of the database to the write of the save. *)
Definition rolling_back (answer : option error) (db : Db) (this : Document.t)
    (patchId : ObjectId) (data : option object)
  : result Document.t * Db * Document.t * option object :=
  let count :=
    count (λ p, Patch.ref p = Document._id this ∧ patchId ≤ Patch._id p) db in
  if count =? 1 then
    (Err (RollbackError "rollback to latest patch"), db, this, data)
  else
    let patches :=
      sort_date
        (find (λ p, Patch.ref p = Document._id this ∧ Patch._id p ≤ patchId) db) in
    if negb (existsb (λ patch, Patch._id patch =? patchId) patches) then
      (Err (RollbackError "patch doesn't exist"), db, this, data)
    else
      match replay ∅ patches with
      | Err e => (Err e, db, this, data)
      | Ok state =>
          let merged := lodash.merge data state in
          let '(r, db', this') := saving answer db (set schema this merged) in
          (r, db', this', const merged <$> data)
      end.

(** A rollback whose write the database accepts. *)
Definition rollback (db : Db) (this : Document.t) (patchId : ObjectId)
    (data : option object)
  : result Document.t * Db * Document.t * option object :=
  rolling_back None db this patchId data.

End patchHistory.

(* ===================================================================== *)
(** * Installing the plugin *)
(* ===================================================================== *)

(** What [patchHistory] checks and registers on a schema when it is
    plugged in, by name: the instance methods, the statics, the virtuals
    with a getter, and the hooks in the order they were added. *)
Record Registrations := {
  methods : gset string;
  statics : gset string;
  getters : gset string;
  post_hooks : list string;
  pre_hooks : list string
}.

(** [schema.plugin(patchHistory, opts)]: the assertion on [data], then the
    methods [data] and [rollback], the static and the virtual [patches],
    the post hooks on [init] and [save], the pre hooks on [remove] and
    [save].  The result is the message of the failed assertion or the
    schema's registrations afterwards. *)
Definition plugin (schema : Registrations) : string + Registrations :=
  if decide ("data" ∈ methods schema)
  then inl "conflicting instance method: `data`"
  else inr {| methods := {[ "data"; "rollback" ]} ∪ methods schema;
              statics := {[ "patches" ]} ∪ statics schema;
              getters := {[ "patches" ]} ∪ getters schema;
              post_hooks := post_hooks schema ++ ["init"; "save"];
              pre_hooks := pre_hooks schema ++ ["remove"; "save"] |}.

(* ===================================================================== *)
(** * The schemas of the test suite *)
(* ===================================================================== *)

Module fixtures.
Import mongoose.

(** [new Schema({title: String}, {timestamps: true})], plugged in with [{}]. *)
Definition PostSchema : Schema :=
  {| paths := {[ "title" ]}; virtuals := ∅;
     timestamps := Some {| createdAt := None; updatedAt := None |};
     versionKey := Some "__v" |}.

Definition PostOpts : option object := Some ∅.

(** [new Schema({text: String})] with the virtual [user] that stores its
    argument in [_user]. *)
Definition CommentSchema : Schema :=
  {| paths := {[ "text" ]}; virtuals := {[ "user" := "_user" ]};
     timestamps := None; versionKey := Some "__v" |}.

Definition CommentOpts : option object :=
  Some {[ "removePatches" := JBool false;
          "includes" := JObj {[
            "text" := JObj {[ "type" := JStr "String" ]};
            "user" := JObj {[ "type" := JStr "ObjectId";
                              "required" := JBool true;
                              "from" := JStr "_user" ]} ]} ]}.

Definition db0 : Db :=
  {| patches := []; documents := ∅; next_oid := 1; now := 1000 |}.

(** [doc.set(obj).save()] on the outcome of the previous step, five
    milliseconds later. *)
Definition update (schema : Schema) (opts : option object) (obj : object)
    (prev : result Document.t * Db * Document.t)
  : result Document.t * Db * Document.t :=
  save schema opts (tick 5 prev.1.2) (set schema prev.2 obj).

(** [Post.create({title: 'foo'})] *)
Definition post_foo :=
  Model_create PostSchema PostOpts {[ "title" := JStr "foo" ]} db0.

(** The document of the rollback tests: created as version 1 and saved as
    version 2, then as version 3. *)
Definition post_v1 :=
  Model_create PostSchema PostOpts {[ "title" := JStr "version 1" ]} db0.
Definition post_v2 :=
  update PostSchema PostOpts {[ "title" := JStr "version 2" ]} post_v1.
Definition post_v3 :=
  update PostSchema PostOpts {[ "title" := JStr "version 3" ]} post_v2.


(** A schema with a second path, and a document that gains it in its
    second save. *)
Definition ArticleSchema : Schema :=
  {| paths := {[ "title"; "body" ]}; virtuals := ∅;
     timestamps := None; versionKey := Some "__v" |}.

Definition article_v1 :=
  Model_create ArticleSchema None {[ "title" := JStr "a" ]} db0.
Definition article_v2 :=
  update ArticleSchema None {[ "body" := JStr "b" ]} article_v1.

(** [new Post({title: 'foo'})], not yet saved. *)
Definition post_new := new PostSchema {[ "title" := JStr "foo" ]} db0.

(** [new Comment({text: 'wat'})]: no [user], so [_user] stays undefined. *)
Definition comment_anonymous :=
  new CommentSchema {[ "text" := JStr "wat" ]} db0.

(** [Comment.create({text: 'comm 1', user: ...})] and two updates. *)
Definition comment_v1 :=
  Model_create CommentSchema CommentOpts
    {[ "text" := JStr "comm 1"; "user" := JNum 71 ]} db0.
Definition comment_v2 :=
  update CommentSchema CommentOpts
    {[ "text" := JStr "comm 2"; "user" := JNum 72 ]} comment_v1.
Definition comment_v3 :=
  update CommentSchema CommentOpts
    {[ "text" := JStr "comm 3"; "user" := JNum 73 ]} comment_v2.

(** The post of [post_foo] saved again, unchanged, five milliseconds
    later. *)
Definition post_foo_again := update PostSchema PostOpts ∅ post_foo.

(** The post of [post_foo], found again in the database. *)
Definition post_foo_loaded : Document.t :=
  default post_foo.2 (findById PostSchema post_foo.1.2 1).

(** The comment of [comment_v3], found again in the database: a fresh
    instance, on which [_user] is undefined. *)
Definition comment_loaded : Document.t :=
  default comment_v3.2 (findById CommentSchema comment_v3.1.2 1).

(** A second post, created in the database that holds the first. *)
Definition second_post :=
  Model_create PostSchema PostOpts {[ "title" := JStr "other" ]}
    (tick 5 post_v3.1.2).

End fixtures.

(* ===================================================================== *)
(** * Statements that are put to the test *)
(* ===================================================================== *)

Section statements.
Import mongoose.


(** A field present in both the extra data and the replayed state is saved
    with the value of the extra data. *)
Definition extraData_prevails : Prop :=
  ∀ schema opts db this patchId data state saved db' data',
    replay ∅ (sort_date (find (λ p, Patch.ref p = Document._id this ∧
                                    Patch._id p ≤ patchId) db)) = Ok state →
    rollback schema opts db this patchId (Some data) =
      (Ok saved, db', saved, data') →
    ∀ field value,
      data !! field = Some value → is_Some (state !! field) →
      Document._doc saved !! field = Some value.

(** After a rollback that resolves, the extra data differs from what was
    passed whenever the replayed state is not empty. *)
Definition extraData_always_changes : Prop :=
  ∀ schema opts db this patchId data state saved db' data',
    replay ∅ (sort_date (find (λ p, Patch.ref p = Document._id this ∧
                                    Patch._id p ≤ patchId) db)) = Ok state →
    rollback schema opts db this patchId (Some data) =
      (Ok saved, db', saved, data') →
    state ≠ ∅ →
    data' ≠ Some data.

(** The patch model is named by the option [patchModelName] when it is
    supplied, and by the model's name followed by "Patches" otherwise. *)
Definition patchModelName_names_the_model : Prop :=
  ∀ (opts : object) model_modelName modelNames,
    match opts !! "patchModelName" with
    | Some name => (getPatchModel (Some opts) model_modelName modelNames).2 = name
    | None => (getPatchModel (Some opts) model_modelName modelNames).2 =
              JStr (model_modelName +:+ "Patches")
    end.


End statements.

(* ===================================================================== *)
(** * Values: induction and equality *)
(* ===================================================================== *)

Section json_facts.

Lemma jsize_lookup (m : gmap string json) k v :
  m !! k = Some v → jsize v < jsize (JObj m).
Proof.
  intros Hk. cbn [jsize].
  rewrite <- (insert_delete_id m k v Hk).
  rewrite map_fold_insert_L.
  - lia.
  - intros. lia.
  - apply lookup_delete_eq.
Qed.

(** Induction on values, with the hypothesis for every property of an
    object. *)
Lemma json_ind' (P : json → Prop) :
  P JNull →
  (∀ b, P (JBool b)) →
  (∀ n, P (JNum n)) →
  (∀ s, P (JStr s)) →
  (∀ m : gmap string json, map_Forall (λ _ v, P v) m → P (JObj m)) →
  ∀ v, P v.
Proof.
  intros Hnull Hbool Hnum Hstr Hobj v.
  remember (jsize v) as n eqn:Hn. revert v Hn.
  induction n as [n IH] using lt_wf_ind. intros v ->.
  destruct v as [| | | |m]; auto.
  apply Hobj. intros k w Hk.
  eapply IH; [|reflexivity]. by eapply jsize_lookup.
Qed.

Lemma strict_eqb_eq a b : strict_eqb a b = true → a = b.
Proof.
  destruct a, b; cbn; try discriminate; intros H; auto.
  - f_equal. by apply Bool.eqb_prop.
  - f_equal. by apply Z.eqb_eq.
  - f_equal. by apply String.eqb_eq.
Qed.

Lemma strict_eqb_refl a : is_object a = false → strict_eqb a a = true.
Proof.
  destruct a; cbn; intros; try done.
  - by destruct b.
  - apply Z.eqb_refl.
  - apply String.eqb_refl.
Qed.

End json_facts.

(* ===================================================================== *)
(** * The diff engine: [compare] and [apply] *)
(* ===================================================================== *)

Section jsonpatch_facts.
Import jsonpatch.

Lemma plain_key_escape k : plain_key k = true → escapePathComponent k = k.
Proof.
  unfold plain_key. induction k as [|c k IH]; [done|]. cbn.
  destruct (Ascii.eqb c "~"); [done|].
  destruct (Ascii.eqb c "/"); cbn; [by rewrite Bool.andb_false_r|].
  intros H. by rewrite IH.
Qed.

Lemma plain_key_unescape k : plain_key k = true → unescapePathComponent k = k.
Proof.
  unfold plain_key, unescapePathComponent.
  by destruct (contains "~" k).
Qed.

Lemma plain_Forall (m : object) :
  plain (JObj m) = true ↔
  map_Forall (λ k v, plain_key k = true ∧ plain v = true) m.
Proof.
  cbn [plain].
  apply (map_fold_weak_ind (λ acc m,
    acc = true ↔ map_Forall (λ k v, plain_key k = true ∧ plain v = true) m)).
  - split; [intros _; apply map_Forall_empty|done].
  - intros k v m' acc Hk IH. rewrite map_Forall_insert by done.
    rewrite !andb_true_iff, IH. tauto.
Qed.

Lemma plain_lookup (m : object) k v :
  plain (JObj m) = true → m !! k = Some v →
  plain_key k = true ∧ plain v = true.
Proof. rewrite plain_Forall. intros H Hk. exact (H k v Hk). Qed.

Lemma generate_unfold old new p :
  _generate (JObj old) (JObj new) p =
  let changes := concat (change new p <$> reverse (map_to_list old)) in
  if bool_decide (dom old ⊆ dom new) && (size new =? size old) then changes
  else changes ++ concat (addition old p <$> map_to_list new).
Proof.
  cbn [_generate]. rewrite Bool.negb_involutive, !map_fold_foldr. cbn zeta.
  assert (Hc : ∀ l : list (string * json),
    foldr (uncurry (λ key oldVal patches, patches ++
            match new !! key with
            | Some newVal =>
                if is_object oldVal && is_object newVal
                then _generate oldVal newVal (p ++ [escapePathComponent key])
                else if strict_eqb oldVal newVal then []
                else [Replace (p ++ [escapePathComponent key]) newVal]
            | None => [Remove (p ++ [escapePathComponent key])]
            end)) [] l = concat (change new p <$> reverse l)).
  { induction l as [|[k v] l IH]; [done|].
    rewrite reverse_cons, fmap_app, concat_app. cbn.
    by rewrite IH, app_nil_r. }
  assert (Ha : ∀ l : list (string * json),
    foldr (uncurry (λ key newVal patches,
            match old !! key with
            | None => [Add (p ++ [escapePathComponent key]) newVal]
            | Some _ => []
            end ++ patches)) [] l = concat (addition old p <$> l)).
  { induction l as [|[k v] l IH]; [done|]. cbn. by rewrite IH. }
  by rewrite Hc, Ha.
Qed.

Lemma apply_app tree a b :
  apply tree (a ++ b) = (tree' ←ᵣ apply tree a; apply tree' b).
Proof.
  revert tree. induction a as [|o a IH]; intros tree; [done|].
  cbn. destruct (walk o tree (path o)); cbn; auto.
Qed.

Lemma objOps_below p o obj key : objOps (below p o) obj key = objOps o obj key.
Proof. by destruct o. Qed.

Lemma walk_below p o obj keys : walk (below p o) obj keys = walk o obj keys.
Proof.
  revert obj. induction keys as [|k keys IH]; intros obj; [done|].
  cbn. destruct keys as [|k' keys].
  - by destruct o.
  - destruct (obj !! k); [|by destruct o].
    destruct (obj !! unescapePathComponent k) as [[| | | |child]|];
      try by destruct o, keys.
    by rewrite IH.
Qed.

Lemma path_below p o : path (below p o) = p ++ path o.
Proof. by destruct o. Qed.

Lemma below_below p q o : below p (below q o) = below (p ++ q) o.
Proof. destruct o; cbn; by rewrite (assoc_L (++)). Qed.

Lemma below_nil o : below [] o = o.
Proof. by destruct o. Qed.

Lemma walk_cons o (tree child : object) k keys :
  plain_key k = true →
  keys ≠ [] →
  tree !! k = Some (JObj child) →
  walk o tree (k :: keys) =
  (child' ←ᵣ walk o child keys; Ok (<[k := JObj child']> tree)).
Proof.
  destruct keys; [done|]. intros Hp _ Hk. cbn.
  by rewrite (plain_key_unescape k Hp), Hk.
Qed.

(** The last token of a path, at a plain key. *)
Lemma walk_last o (tree : object) k :
  plain_key k = true →
  walk o tree [k] =
  if bool_decide (is_Some (tree !! k)) || is_add o then Ok (objOps o tree k)
  else Err (unresolved o).
Proof. intros Hp. cbn. by rewrite (plain_key_unescape k Hp). Qed.

(** Operations below the plain key [k] act on the object at [k] only. *)
Lemma apply_below k (child : object) ops (tree : object) :
  plain_key k = true →
  Forall (λ o, path o ≠ []) ops →
  tree !! k = Some (JObj child) →
  apply tree (below [k] <$> ops) =
  (child' ←ᵣ apply child ops; Ok (<[k := JObj child']> tree)).
Proof.
  intros Hp Hne. revert child tree.
  induction Hne as [|o ops Ho _ IH]; intros child tree Hk.
  - cbn. by rewrite insert_id.
  - cbn [fmap list_fmap apply]. rewrite path_below, walk_below.
    cbn [app]. rewrite (walk_cons _ _ child) by done.
    destruct (walk o child (path o)) as [child'|e]; [|done].
    cbn [rbind]. rewrite (IH child'); [|apply lookup_insert_eq].
    destruct (apply child' ops); [|done]. cbn. by rewrite insert_insert_eq.
Qed.

Lemma concat_pointwise {A B} (f g : A → list B) (h : B → B) l :
  Forall (λ x, f x = h <$> g x) l →
  concat (f <$> l) = h <$> concat (g <$> l).
Proof.
  induction 1 as [|x l Hx _ IH]; [done|].
  cbn. by rewrite fmap_app, Hx, IH.
Qed.

(** The paths [_generate] emits all start with the path it was given. *)
Lemma generate_below mirror :
  ∀ obj p, _generate mirror obj p = below p <$> _generate mirror obj [].
Proof.
  induction mirror as [| | | |old IH] using json_ind'; try done.
  intros [| | | |new] p; try done.
  rewrite !generate_unfold. cbn zeta.
  apply map_Forall_to_list in IH.
  assert (Hc : concat (change new p <$> reverse (map_to_list old)) =
               below p <$> concat (change new [] <$> reverse (map_to_list old))).
  { apply concat_pointwise, Forall_reverse.
    eapply Forall_impl; [exact IH|]. intros [k ov] Hov. unfold change. cbn.
    cbn in Hov. destruct (new !! k) as [nv|]; [|done].
    destruct (is_object ov && is_object nv); [|by destruct (strict_eqb ov nv)].
    rewrite (Hov nv (p ++ [escapePathComponent k])),
      (Hov nv [escapePathComponent k]), <- list_fmap_compose.
    apply list_fmap_ext. intros _ o _. cbn. by rewrite below_below. }
  assert (Ha : concat (addition old p <$> map_to_list new) =
               below p <$> concat (addition old [] <$> map_to_list new)).
  { apply concat_pointwise, Forall_forall. intros [k nv] _. unfold addition.
    cbn. by destruct (old !! k). }
  rewrite Hc, Ha. destruct (_ && _); [done|]. by rewrite fmap_app.
Qed.

Lemma generate_paths mirror obj :
  Forall (λ o, path o ≠ []) (_generate mirror obj []).
Proof.
  destruct mirror as [| | | |old], obj as [| | | |new];
    try by apply Forall_nil.
  rewrite generate_unfold. cbn zeta.
  assert (Hc : Forall (λ o, path o ≠ [])
                 (concat (change new [] <$> reverse (map_to_list old)))).
  { apply Forall_concat, Forall_fmap, Forall_forall. intros [k ov] _.
    unfold change. cbn. destruct (new !! k) as [nv|].
    - destruct (is_object ov && is_object nv).
      + rewrite generate_below. apply Forall_fmap, Forall_forall.
        intros o _. cbn. rewrite path_below. done.
      + destruct (strict_eqb ov nv); repeat constructor; done.
    - repeat constructor; done. }
  assert (Ha : Forall (λ o, path o ≠ [])
                 (concat (addition old [] <$> map_to_list new))).
  { apply Forall_concat, Forall_fmap, Forall_forall. intros [k nv] _.
    unfold addition. cbn. destruct (old !! k); repeat constructor; done. }
  destruct (_ && _); [done|]. by apply Forall_app.
Qed.

(** One old key: after its operations the tree holds, at that key, what
    [new] holds there. *)
Lemma change_apply (new tree : object) k ov :
  tree !! k = Some ov →
  plain_key k = true → plain ov = true → plain (JObj new) = true →
  roundtrips ov →
  apply tree (change new [] (k, ov)) = Ok (partial_alter (λ _, new !! k) k tree).
Proof.
  intros Hk Hpk Hpo Hpn IH. unfold change. cbn [fst snd app].
  rewrite (plain_key_escape k Hpk).
  destruct (new !! k) as [nv|] eqn:Hn.
  - destruct (is_object ov && is_object nv) eqn:Hobj.
    + destruct ov as [| | | |o]; try done. destruct nv as [| | | |n]; try done.
      rewrite generate_below, (apply_below k o); [|done|apply generate_paths|done].
      rewrite (IH o n); [done|done|done|].
      by destruct (plain_lookup new k (JObj n) Hpn Hn).
    + destruct (strict_eqb ov nv) eqn:Heq.
      * apply strict_eqb_eq in Heq as ->. cbn. f_equal.
        symmetry. exact (insert_id tree k nv Hk).
      * cbn [apply path]. rewrite walk_last by done. rewrite Hk.
        by rewrite bool_decide_eq_true_2 by done.
  - cbn [apply path]. rewrite walk_last by done. rewrite Hk.
    by rewrite bool_decide_eq_true_2 by done.
Qed.

Lemma changes_apply (new : object) l : ∀ tree : object,
  plain (JObj new) = true →
  NoDup l.*1 →
  Forall (λ kv, tree !! kv.1 = Some kv.2 ∧ plain_key kv.1 = true ∧
                plain kv.2 = true ∧ roundtrips kv.2) l →
  ∃ tree', apply tree (concat (change new [] <$> l)) = Ok tree' ∧
    ∀ j, tree' !! j = if decide (j ∈ l.*1) then new !! j else tree !! j.
Proof.
  induction l as [|[k ov] l IH]; intros tree Hpn Hnd Hl.
  - exists tree. split; [done|]. intros j.
    by rewrite decide_False by apply not_elem_of_nil.
  - rewrite fmap_cons in Hnd. apply NoDup_cons in Hnd as [Hk Hnd].
    apply Forall_cons in Hl as [(Hov & Hpk & Hpo & Hrt) Hl].
    cbn [fst snd] in Hk, Hov, Hpk, Hpo, Hrt.
    destruct (IH (partial_alter (λ _, new !! k) k tree) Hpn Hnd)
      as (tree' & Happ & Hlook).
    { rewrite Forall_forall in Hl |- *. intros [k' ov'] Hin.
      destruct (Hl _ Hin) as [Hk' ?]. split; [|done].
      rewrite lookup_partial_alter_ne; [done|].
      intros ->. apply Hk. apply list_elem_of_fmap. by exists (k', ov'). }
    exists tree'. split.
    + rewrite fmap_cons. cbn [concat].
      rewrite apply_app, (change_apply _ _ _ _ Hov Hpk Hpo Hpn Hrt). exact Happ.
    + intros j. rewrite Hlook, fmap_cons. cbn [fst].
      destruct (decide (j = k)) as [->|Hne].
      * rewrite lookup_partial_alter_eq.
        repeat case_decide; try done; set_solver.
      * rewrite lookup_partial_alter_ne by done.
        repeat case_decide; try done; set_solver.
Qed.

Lemma additions_apply (old new : object) l : ∀ tree : object,
  Forall (λ kv, new !! kv.1 = Some kv.2 ∧ plain_key kv.1 = true) l →
  ∃ tree', apply tree (concat (addition old [] <$> l)) = Ok tree' ∧
    ∀ j, tree' !! j =
         if decide (j ∈ l.*1 ∧ old !! j = None) then new !! j else tree !! j.
Proof.
  induction l as [|[k nv] l IH]; intros tree Hl.
  - exists tree. split; [done|]. intros j.
    rewrite decide_False; [done|]. intros [[]%not_elem_of_nil _].
  - apply Forall_cons in Hl as [[Hk Hpk] Hl]. cbn [fst snd] in Hk, Hpk.
    rewrite !fmap_cons. cbn [concat fst]. unfold addition at 1. cbn [fst snd app].
    rewrite (plain_key_escape k Hpk).
    destruct (old !! k) as [ov|] eqn:Ho.
    + destruct (IH tree Hl) as (tree' & Happ & Hlook).
      exists tree'. split; [done|]. intros j. rewrite Hlook.
      repeat case_decide; try done; [set_solver|].
      destruct (decide (j = k)) as [->|]; [naive_solver|set_solver].
    + destruct (IH (<[k := nv]> tree) Hl) as (tree' & Happ & Hlook).
      exists tree'. split.
      { cbn [app apply path]. rewrite walk_last by done.
        cbn [is_add]. rewrite Bool.orb_true_r. exact Happ. }
      intros j. rewrite Hlook.
      destruct (decide (j = k)) as [->|Hne].
      * rewrite lookup_insert_eq. repeat case_decide; try done; set_solver.
      * rewrite lookup_insert_ne by done.
        repeat case_decide; try done; set_solver.
Qed.

(** ** Round trip: the diff applied to the old tree gives the new tree *)

Lemma generate_roundtrips mirror : roundtrips mirror.
Proof.
  induction mirror as [| | | |m IH] using json_ind'; try done.
  intros old new [= ->] Hpo Hpn. rewrite generate_unfold. cbn zeta.
  destruct (changes_apply new (reverse (map_to_list old)) old Hpn)
    as (tree1 & Happ1 & Hlook1).
  { rewrite fmap_reverse, reverse_Permutation. apply NoDup_fst_map_to_list. }
  { apply Forall_reverse, Forall_forall. intros [k ov] Hin.
    apply elem_of_map_to_list in Hin. cbn [fst snd].
    destruct (plain_lookup old k ov Hpo Hin). split_and!; try done.
    by eapply IH. }
  assert (Hdom : ∀ j, j ∈ (reverse (map_to_list old)).*1 ↔ is_Some (old !! j)).
  { intros j. rewrite fmap_reverse, elem_of_reverse, list_elem_of_fmap. split.
    - intros ([k ov] & -> & Hin%elem_of_map_to_list). by exists ov.
    - intros [ov Hov]. exists (j, ov). split; [done|]. by apply elem_of_map_to_list. }
  destruct (bool_decide (dom old ⊆ dom new) && (size new =? size old)) eqn:Hshort.
  - rewrite Happ1. f_equal. apply map_eq. intros j. rewrite Hlook1.
    apply andb_prop in Hshort as [Hsub%bool_decide_eq_true Hsize%Nat.eqb_eq].
    assert (Heq : dom old = dom new).
    { apply set_subseteq_size_eq; [done|]. rewrite !size_dom. lia. }
    destruct (decide _) as [|Hn]; [done|].
    rewrite Hdom, <- elem_of_dom, Heq in Hn.
    apply not_elem_of_dom in Hn as Hn'. rewrite Hn'.
    rewrite <- Heq in Hn. by apply not_elem_of_dom.
  - rewrite apply_app, Happ1. cbn [rbind].
    destruct (additions_apply old new (map_to_list new) tree1)
      as (tree2 & Happ2 & Hlook2).
    { apply Forall_forall. intros [k nv] Hin%elem_of_map_to_list. cbn [fst snd].
      by destruct (plain_lookup new k nv Hpn Hin). }
    rewrite Happ2. f_equal. apply map_eq. intros j. rewrite Hlook2, Hlook1.
    destruct (decide (_ ∧ _)) as [|Hn]; [done|].
    destruct (decide _) as [|Hn1]; [done|].
    rewrite Hdom in Hn1. rewrite <- eq_None_not_Some in Hn1. rewrite Hn1.
    destruct (new !! j) as [nv|] eqn:Hnv; [|done].
    exfalso. apply Hn. split; [|done].
    apply list_elem_of_fmap. exists (j, nv). split; [done|]. by apply elem_of_map_to_list.
Qed.

(** For objects with plain keys the diff applied to the first gives the
    second. *)
Theorem compare_apply (tree1 tree2 : object) :
  plain (JObj tree1) = true → plain (JObj tree2) = true →
  apply tree1 (compare tree1 tree2) = Ok tree2.
Proof. by apply (generate_roundtrips (JObj tree1)). Qed.

(** ** No difference, no operation *)

Lemma concat_nil_pointwise {A B} (f : A → list B) l :
  Forall (λ x, f x = []) l → concat (f <$> l) = [].
Proof. induction 1 as [|x l Hx _ IH]; [done|]. cbn. by rewrite Hx, IH. Qed.

Lemma concat_nil_inv {A} (ls : list (list A)) :
  concat ls = [] → Forall (λ l, l = []) ls.
Proof.
  induction ls as [|l ls IH]; [constructor|]. cbn.
  intros [-> H]%app_eq_nil. constructor; auto.
Qed.

Lemma generate_same v : ∀ p, _generate v v p = [].
Proof.
  induction v as [| | | |m IH] using json_ind'; try done.
  intros p. rewrite generate_unfold. cbn zeta.
  rewrite bool_decide_eq_true_2 by done. rewrite Nat.eqb_refl. cbn [andb].
  apply concat_nil_pointwise, Forall_reverse, Forall_forall.
  intros [k ov] Hin%elem_of_map_to_list. unfold change. cbn [fst snd].
  rewrite Hin. destruct (is_object ov) eqn:Hobj; cbn [andb].
  - by eapply IH.
  - by rewrite strict_eqb_refl.
Qed.

Theorem compare_same (tree : object) : compare tree tree = [].
Proof. apply generate_same. Qed.

(** A diff without operations: the objects are the same, whatever their
    keys. *)
Lemma generate_nil mirror :
  ∀ old new p, mirror = JObj old →
    _generate (JObj old) (JObj new) p = [] → old = new.
Proof.
  induction mirror as [| | | |m IH] using json_ind'; try done.
  intros old new p [= ->]. rewrite generate_unfold. cbn zeta.
  intros Hnil.
  assert (Hc : concat (change new p <$> reverse (map_to_list old)) = []).
  { destruct (_ && _); [done|]. by apply app_eq_nil in Hnil as [? _]. }
  assert (Hsub : ∀ k ov, old !! k = Some ov → new !! k = Some ov).
  { intros k ov Hk. apply concat_nil_inv in Hc.
    rewrite Forall_fmap, Forall_reverse, Forall_forall in Hc.
    specialize (Hc (k, ov)). cbn in Hc. unfold change in Hc. cbn [fst snd] in Hc.
    assert (Hin : (k, ov) ∈ map_to_list old) by by apply elem_of_map_to_list.
    specialize (Hc Hin).
    destruct (new !! k) as [nv|]; [|done]. f_equal.
    destruct (is_object ov && is_object nv) eqn:Hobj.
    - destruct ov as [| | | |o]; try done. destruct nv as [| | | |n]; try done.
      f_equal. symmetry. by eapply (IH k (JObj o) Hk o n). 
    - destruct (strict_eqb ov nv) eqn:Heq; [|done].
      symmetry. by apply strict_eqb_eq. }
  apply map_eq. intros j. destruct (old !! j) as [ov|] eqn:Ho.
  { symmetry. by apply Hsub. }
  destruct (new !! j) as [nv|] eqn:Hn; [|done]. exfalso.
  destruct (bool_decide (dom old ⊆ dom new) && (size new =? size old)) eqn:Hshort.
  - apply andb_prop in Hshort as [Hs%bool_decide_eq_true Hsize%Nat.eqb_eq].
    assert (Heq : dom old = dom new).
    { apply set_subseteq_size_eq; [done|]. rewrite !size_dom. lia. }
    apply not_elem_of_dom in Ho. rewrite Heq in Ho. apply Ho.
    apply elem_of_dom. by exists nv.
  - apply app_eq_nil in Hnil as [_ Ha]. apply concat_nil_inv in Ha.
    rewrite Forall_fmap, Forall_forall in Ha.
    specialize (Ha (j, nv)). cbn in Ha. unfold addition in Ha. cbn [fst snd] in Ha.
    rewrite Ho in Ha. discriminate Ha. by apply elem_of_map_to_list.
Qed.

Theorem compare_nil (tree1 tree2 : object) :
  compare tree1 tree2 = [] ↔ tree1 = tree2.
Proof.
  split; [|intros ->; apply compare_same].
  by apply (generate_nil (JObj tree1)).
Qed.


End jsonpatch_facts.

(* ===================================================================== *)
(** * [_.merge] *)
(* ===================================================================== *)

Section lodash_facts.
Import lodash.

Lemma map_fold_insert_lookup {A B} (g : string → A → B) (b : gmap string B)
    (m : gmap string A) j :
  map_fold (λ k v acc, <[k := g k v]> acc) b m !! j =
  match m !! j with
  | Some v => Some (g j v)
  | None => b !! j
  end.
Proof.
  revert m. apply (map_fold_weak_ind (λ r m, r !! j = match m !! j with
    | Some v => Some (g j v) | None => b !! j end)).
  - by rewrite lookup_empty.
  - intros i x m r Hi IH. destruct (decide (i = j)) as [->|Hne].
    + by rewrite !lookup_insert_eq.
    + by rewrite !lookup_insert_ne.
Qed.

(** What [_.merge] leaves at each key. *)
Lemma merge_lookup target (source : object) j :
  merge target source !! j =
  match source !! j with
  | Some v => Some (mergeValue (default ∅ target !! j) v)
  | None => default ∅ target !! j
  end.
Proof.
  unfold merge. cbn [mergeValue].
  rewrite map_fold_insert_lookup. by destruct target.
Qed.

(** Merging into a value that is not an object copies the source. *)
Lemma mergeValue_fresh v : ∀ objValue,
  (∀ o, objValue ≠ Some (JObj o)) → mergeValue objValue v = v.
Proof.
  induction v as [| | | |m IH] using json_ind'; try done.
  intros objValue Hobj. cbn [mergeValue]. f_equal.
  apply map_eq. intros j. rewrite map_fold_insert_lookup.
  assert ((match objValue with Some (JObj o) => o | _ => ∅ end) = ∅) as ->.
  { destruct objValue as [[| | | |o]|]; try done. by destruct (Hobj o). }
  rewrite lookup_empty. destruct (m !! j) as [v|] eqn:Hj; [|done].
  f_equal. by eapply IH.
Qed.


Lemma merge_empty (source : object) : merge (Some ∅) source = source.
Proof.
  apply map_eq. intros j. rewrite merge_lookup. cbn. rewrite lookup_empty.
  destruct (source !! j) as [v|]; [|done]. f_equal. by apply mergeValue_fresh.
Qed.

Lemma mergeValue_scalar objValue v :
  is_object v = false → mergeValue objValue v = v.
Proof. by destruct v. Qed.

End lodash_facts.

(* ===================================================================== *)
(** * Queries on the patch collection *)
(* ===================================================================== *)

Section query_facts.
Import mongoose.

Lemma filter_all {A} (P : A → Prop) `{!∀ x, Decision (P x)} l :
  Forall P l → filter P l = l.
Proof.
  induction 1 as [|x l Hx _ IH]; [done|].
  by rewrite filter_cons_True, IH.
Qed.

Lemma filter_none {A} (P : A → Prop) `{!∀ x, Decision (P x)} l :
  Forall (λ x, ¬ P x) l → filter P l = [].
Proof.
  induction 1 as [|x l Hx _ IH]; [done|].
  by rewrite filter_cons_False.
Qed.


Lemma insert_by_date_perm p l : insert_by_date p l ≡ₚ p :: l.
Proof.
  induction l as [|q l IH]; [done|]. cbn.
  destruct (decide _); [done|]. by rewrite IH, Permutation_swap.
Qed.

Lemma sort_date_perm l : sort_date l ≡ₚ l.
Proof.
  induction l as [|p l IH]; [done|].
  change (sort_date (p :: l)) with (insert_by_date p (sort_date l)).
  by rewrite insert_by_date_perm, IH.
Qed.




Lemma find_and (P Q : Patch.t → Prop)
    `{!∀ p, Decision (P p), !∀ p, Decision (Q p)} db :
  find (λ p, P p ∧ Q p) db = filter Q (find P db).
Proof.
  unfold find. rewrite list_filter_filter.
  apply list_filter_iff. naive_solver.
Qed.


End query_facts.

(* ===================================================================== *)
(** * The data projection and the save path *)
(* ===================================================================== *)

Section save_facts.
Import mongoose.

Variable schema : Schema.
Variable opts : option object.

Lemma data_lookup this j :
  data schema this !! j =
  if decide (j ∈ hidden schema) then None else Document._doc this !! j.
Proof.
  unfold data, hidden, toObject.
  destruct (timestamps schema) as [ts|], (versionKey schema) as [key|];
    rewrite ?lookup_delete, ?lookup_insert;
    repeat case_decide; try done; set_solver.
Qed.

Lemma data_dom this : dom (data schema this) ## hidden schema.
Proof.
  intros j [v Hv]%elem_of_dom Hh. rewrite data_lookup in Hv.
  by rewrite decide_True in Hv.
Qed.

Lemma stamp_lookup time this j :
  j ∉ hidden schema → stamp schema time this !! j = Document._doc this !! j.
Proof.
  unfold hidden, stamp. intros Hj.
  destruct (timestamps schema) as [ts|], (versionKey schema) as [key|];
    repeat match goal with
    | |- context [match ?x with _ => _ end] => destruct x
    end;
    rewrite ?lookup_insert; repeat case_decide; try done; set_solver.
Qed.

(** The housekeeping of a write does not show in [data]. *)
Lemma data_write this db :
  data schema (write schema this db).1 = data schema this.
Proof.
  apply map_eq. intros j. rewrite !data_lookup. case_decide; [done|].
  by apply stamp_lookup.
Qed.

Lemma data_snapshot this : data schema (snapshot schema this) = data schema this.
Proof. done. Qed.


(** ** The three ways a save can go *)

Lemma save_unchanged db this before :
  baseline this = Some before →
  jsonpatch.compare before (data schema this) = [] →
  save schema opts db this =
  (Ok (snapshot schema (write schema this db).1), (write schema this db).2,
   snapshot schema (write schema this db).1).
Proof.
  intros Hb Hc. unfold save, saving, pre_save. by rewrite Hb, Hc.
Qed.

Lemma save_changed db this before ops :
  baseline this = Some before →
  jsonpatch.compare before (data schema this) = ops →
  ops ≠ [] →
  missing (createPatchSchema (options opts)) (assemble schema opts this ops) = [] →
  let db' := inserted (created db (assemble schema opts this ops)) db in
  save schema opts db this =
  (Ok (snapshot schema (write schema this db').1), (write schema this db').2,
   snapshot schema (write schema this db').1).
Proof.
  intros Hb Hc Hops Hm. unfold save, saving, pre_save, create.
  rewrite Hb, Hc. destruct ops as [|o ops]; [done|]. by rewrite Hm.
Qed.

Lemma save_rejected db this before ops :
  baseline this = Some before →
  jsonpatch.compare before (data schema this) = ops →
  ops ≠ [] →
  missing (createPatchSchema (options opts)) (assemble schema opts this ops) ≠ [] →
  ∃ paths, save schema opts db this = (Err (ValidationError paths), db, this).
Proof.
  intros Hb Hc Hops Hm. unfold save, saving, pre_save, create.
  rewrite Hb, Hc. destruct ops as [|o ops]; [done|].
  destruct (missing _ _) as [|name names]; [done|]. eauto.
Qed.

(** A save settles in one of two ways: rejected with nothing changed, or
    resolved with the instance it returns, its snapshot taken and the patch
    for the difference appended. *)
Lemma save_settled db this r db' this' :
  save schema opts db this = (r, db', this') →
  (∃ e, r = Err e ∧ db' = db ∧ this' = this) ∨
  (r = Ok this' ∧ Document._original this' = Some (data schema this') ∧
   data schema this' = data schema this ∧
   Document._id this' = Document._id this ∧
   Document.isNew this' = false ∧
   ∃ before, baseline this = Some before ∧
     patches db' = patches db ++ appended schema opts db this before).
Proof.
  unfold save, saving, pre_save, create, appended. intros Hs.
  destruct (baseline this) as [before|]; [|injection Hs as <- <- <-; eauto].
  destruct (jsonpatch.compare before (data schema this)) as [|o ops] eqn:Hc.
  - injection Hs as <- <- <-. right. split_and!; try done.
    + exact (data_write this db).
    + exists before. rewrite Hc. split; [done|]. symmetry. apply app_nil_r.
  - destruct (missing _ _).
    + injection Hs as <- <- <-. right. split_and!; try done.
      * exact (data_write this db).
      * exists before. by rewrite Hc.
    + injection Hs as <- <- <-. eauto.
Qed.



(** ** Validation of the patch data *)

Lemma missing_nil def data :
  (∀ name type, def !! name = Some type → required type = true →
                has_value type data name = true) →
  missing def data = [].
Proof.
  intros H. unfold missing. rewrite filter_none; [done|].
  apply Forall_forall. intros [name type] Hin%elem_of_map_to_list. cbn [fst snd].
  destruct (required type) eqn:Hr; [|done].
  by rewrite (H name type Hin Hr).
Qed.


(** Without included fields the patch data is valid as soon as there are
    operations. *)
Lemma valid_without_includes this ops :
  includes (options opts) = ∅ → ops ≠ [] →
  missing (createPatchSchema (options opts)) (assemble schema opts this ops) = [].
Proof.
  intros Hincl Hops. apply missing_nil. intros name type Hdef _.
  unfold createPatchSchema in Hdef. rewrite Hincl, map_fold_empty in Hdef.
  apply lookup_insert_Some in Hdef as [[<- <-]|[_ Hdef]]; [done|].
  apply lookup_insert_Some in Hdef as [[<- <-]|[_ Hdef]].
  { unfold has_value. cbn. by destruct ops. }
  apply lookup_singleton_Some in Hdef as [<- <-]. done.
Qed.


End save_facts.

(* ===================================================================== *)
(** * Saving: creation, unchanged documents, failed patches *)
(* ===================================================================== *)

Section save_claims.
Import mongoose.

Variable schema : Schema.
Variable opts : option object.


(** C6.  Saving a document whose [data()] equals its last snapshot: the
    diff is empty, the save resolves, and the patch collection is exactly
    what it was; the data of the saved document is unchanged too. *)
Theorem unchanged_save_no_patch db this :
  Document.isNew this = false →
  Document._original this = Some (data schema this) →
  jsonpatch.compare (data schema this) (data schema this) = [] ∧
  ∃ saved db',
    save schema opts db this = (Ok saved, db', saved) ∧
    patches db' = patches db ∧
    data schema saved = data schema this ∧
    Document._original saved = Some (data schema this).
Proof.
  intros Hnew Horig.
  assert (Hb : baseline this = Some (data schema this))
    by (unfold baseline; by rewrite Hnew).
  split; [apply compare_same|].
  eexists _, _.
  split; [exact (save_unchanged schema opts db this _ Hb (compare_same _))|].
  split_and!; try done.
  - exact (data_write schema this db).
  - cbn [snapshot Document._original]. f_equal. exact (data_write schema this db).
Qed.


End save_claims.


Lemma unchanged_save_no_patch_witness :
  ∃ saved db',
    save fixtures.PostSchema fixtures.PostOpts
         fixtures.post_foo.1.2 fixtures.post_foo.2 = (Ok saved, db', saved) ∧
    mongoose.patches db' = mongoose.patches fixtures.post_foo.1.2.
Proof.
  destruct (unchanged_save_no_patch fixtures.PostSchema fixtures.PostOpts
              fixtures.post_foo.1.2 fixtures.post_foo.2)
    as (_ & saved & db' & Hsave & Hpatches & _);
    [reflexivity | vm_compute; reflexivity |].
  exists saved, db'. split; [exact Hsave | exact Hpatches].
Defined.



(* ===================================================================== *)
(** * Rollback *)
(* ===================================================================== *)

Section rollback_claims.
Import mongoose.

Variable schema : Schema.
Variable opts : option object.

(** A target that is no patch of the document up to itself is not found
    after the sort either. *)
Lemma target_not_found (this : Document.t) patchId db :
  (∀ p, p ∈ find (λ p, Patch.ref p = Document._id this ∧
                       Patch._id p ≤ patchId) db → Patch._id p ≠ patchId) →
  existsb (λ patch, Patch._id patch =? patchId)
    (sort_date (find (λ p, Patch.ref p = Document._id this ∧
                           Patch._id p ≤ patchId) db)) = false.
Proof.
  intros Hnone. apply not_true_is_false. intros Hex.
  apply existsb_exists in Hex as (p & Hin & Hid%Nat.eqb_eq).
  apply list_elem_of_In in Hin. rewrite sort_date_perm in Hin.
  by apply (Hnone p).
Qed.

Lemma target_found (this : Document.t) patchId db target :
  target ∈ find (λ p, Patch.ref p = Document._id this) db →
  Patch._id target = patchId →
  existsb (λ patch, Patch._id patch =? patchId)
    (sort_date (find (λ p, Patch.ref p = Document._id this ∧
                           Patch._id p ≤ patchId) db)) = true.
Proof.
  intros Hin Hid. apply existsb_exists. exists target.
  split; [|by apply Nat.eqb_eq].
  apply list_elem_of_In. rewrite sort_date_perm, find_and.
  apply list_elem_of_filter. split; [lia|done].
Qed.

(** Past the two checks and the replay, [rollback] is the merge, [set] and
    [save]. *)
Lemma rollback_commits db this patchId data state :
  count (λ p, Patch.ref p = Document._id this ∧ patchId ≤ Patch._id p) db ≠ 1 →
  existsb (λ patch, Patch._id patch =? patchId)
    (sort_date (find (λ p, Patch.ref p = Document._id this ∧
                           Patch._id p ≤ patchId) db)) = true →
  replay ∅ (sort_date (find (λ p, Patch.ref p = Document._id this ∧
                                  Patch._id p ≤ patchId) db)) = Ok state →
  ∀ r db' this',
    save schema opts db (set schema this (lodash.merge data state)) =
      (r, db', this') →
    rollback schema opts db this patchId data =
      (r, db', this', const (lodash.merge data state) <$> data).
Proof.
  intros Hcount Hfound Hreplay r db' this' Hsave. unfold rollback, rolling_back.
  apply Nat.eqb_neq in Hcount. rewrite Hcount, Hfound, Hreplay. cbn [negb].
  unfold save in Hsave. by rewrite Hsave.
Qed.

(** C2.  When exactly one patch record of the document has an id at or
    after the target, [rollback] rejects with the [RollbackError] "rollback
    to latest patch" before anything is fetched, replayed or saved:
    database, instance and extra data are what they were.  This is the case
    of a document whose only patch is its creation patch, rolled back to
    that patch. *)
Theorem rollback_to_latest_rejected db this patchId data :
  count (λ p, Patch.ref p = Document._id this ∧ patchId ≤ Patch._id p) db = 1 →
  rollback schema opts db this patchId data =
    (Err (RollbackError "rollback to latest patch"), db, this, data) ∧
  ∀ creation,
    find (λ p, Patch.ref p = Document._id this) db = [creation] →
    rollback schema opts db this (Patch._id creation) data =
      (Err (RollbackError "rollback to latest patch"), db, this, data).
Proof.
  intros Hcount. split.
  - unfold rollback, rolling_back. by rewrite Hcount.
  - intros creation Hone. unfold rollback, rolling_back, count.
    fold (find (λ p, Patch.ref p = Document._id this ∧
                     Patch._id creation ≤ Patch._id p) db).
    rewrite find_and, Hone, filter_cons_True by done. done.
Qed.

(** C3.  When no patch record of the document with an id up to the target
    has the target's id (the document has no patch, or the target is not
    one of its patches), [rollback] rejects with a [RollbackError], and
    database, instance and extra data are what they were. *)
Theorem rollback_to_missing_rejected db this patchId data :
  Forall (λ p, Patch._id p ≠ patchId)
    (find (λ p, Patch.ref p = Document._id this ∧ Patch._id p ≤ patchId) db) →
  rollback schema opts db this patchId data =
    (Err (RollbackError
       (if count (λ p, Patch.ref p = Document._id this ∧
                       patchId ≤ Patch._id p) db =? 1
        then "rollback to latest patch" else "patch doesn't exist")),
     db, this, data).
Proof.
  intros Hnone. unfold rollback, rolling_back.
  destruct (count _ db =? 1); [done|].
  rewrite target_not_found; [done|]. by apply Forall_forall.
Qed.



End rollback_claims.

Lemma rollback_to_latest_rejected_witness :
  rollback fixtures.PostSchema fixtures.PostOpts
           fixtures.post_foo.1.2 fixtures.post_foo.2 2 None =
  (Err (RollbackError "rollback to latest patch"),
   fixtures.post_foo.1.2, fixtures.post_foo.2, None).
Proof.
  refine (proj1 (rollback_to_latest_rejected fixtures.PostSchema
                   fixtures.PostOpts fixtures.post_foo.1.2
                   fixtures.post_foo.2 2 None _)).
  vm_compute. reflexivity.
Defined.

Lemma rollback_to_missing_rejected_witness :
  rollback fixtures.PostSchema fixtures.PostOpts
           fixtures.post_foo.1.2 fixtures.post_foo.2 99 None =
  (Err (RollbackError "patch doesn't exist"),
   fixtures.post_foo.1.2, fixtures.post_foo.2, None).
Proof.
  refine (rollback_to_missing_rejected fixtures.PostSchema
            fixtures.PostOpts fixtures.post_foo.1.2
            fixtures.post_foo.2 99 None _).
  compute_done.
Defined.



(** A field added after the target stays: [set] assigns the fields of the
    replayed state and unsets nothing.  The article gained [body] in its
    second save; rolled back to its first patch it still has it, and no
    patch is appended. *)
Example rollback_keeps_later_fields :
  ∃ saved db',
    rollback fixtures.ArticleSchema None
      (mongoose.tick 5 fixtures.article_v2.1.2) fixtures.article_v2.2 2 None =
      (Ok saved, db', saved, None) ∧
    replay ∅ [ {| Patch._id := 2; Patch.date := 1000;
                  Patch.ops := [jsonpatch.Add ["title"] (JStr "a")];
                  Patch.ref := 1; Patch.included := ∅ |} ] =
      Ok {[ "title" := JStr "a" ]} ∧
    data fixtures.ArticleSchema saved =
      {[ "title" := JStr "a"; "body" := JStr "b" ]} ∧
    mongoose.patches db' = mongoose.patches fixtures.article_v2.1.2.
Proof. eexists _, _. vm_compute. split_and!; reflexivity. Qed.

(* ===================================================================== *)
(** * Rollback with extra data *)
(* ===================================================================== *)

Section rollback_data_claims.
Import mongoose.

Variable schema : Schema.
Variable opts : option object.

(** C4, as the plugin has it.  [_.merge(data, state)] merges the replayed
    state into the extra data, not the other way round: at every field of
    the replayed state the merged object holds the state's value merged
    into the extra data's (the state's value itself when it is not an
    object); the extra data only supplies the fields the state does not
    have.  The merged object is set on the document and committed by
    [save], whose outcome is the outcome of the rollback; a document saved
    this way has, at every tracked field of the replayed state that is not
    an object, the value of the state. *)
Theorem rollback_state_prevails db this patchId extraData state :
  count (λ p, Patch.ref p = Document._id this ∧ patchId ≤ Patch._id p) db ≠ 1 →
  existsb (λ patch, Patch._id patch =? patchId)
    (sort_date (find (λ p, Patch.ref p = Document._id this ∧
                           Patch._id p ≤ patchId) db)) = true →
  replay ∅ (sort_date (find (λ p, Patch.ref p = Document._id this ∧
                                  Patch._id p ≤ patchId) db)) = Ok state →
  (∃ r db' this',
     save schema opts db (set schema this (lodash.merge (Some extraData) state)) =
       (r, db', this') ∧
     rollback schema opts db this patchId (Some extraData) =
       (r, db', this', Some (lodash.merge (Some extraData) state))) ∧
  (∀ field value, state !! field = Some value →
     lodash.merge (Some extraData) state !! field =
       Some (lodash.mergeValue (extraData !! field) value)) ∧
  (∀ field value, state !! field = Some value → is_object value = false →
     lodash.merge (Some extraData) state !! field = Some value) ∧
  (∀ field, state !! field = None →
     lodash.merge (Some extraData) state !! field = extraData !! field) ∧
  (∀ saved db' data' field value,
     rollback schema opts db this patchId (Some extraData) =
       (Ok saved, db', saved, data') →
     state !! field = Some value → is_object value = false →
     field ∈ tracked schema →
     data schema saved !! field = Some value).
Proof.
  intros Hcount Hfound Hreplay.
  assert (Hstate : ∀ field value, state !! field = Some value →
    lodash.merge (Some extraData) state !! field =
      Some (lodash.mergeValue (extraData !! field) value)).
  { intros field value Hf. by rewrite merge_lookup, Hf. }
  assert (Hscalar : ∀ field value, state !! field = Some value →
    is_object value = false →
    lodash.merge (Some extraData) state !! field = Some value).
  { intros field value Hf Hv. by rewrite (Hstate _ _ Hf), mergeValue_scalar. }
  destruct (save schema opts db
              (set schema this (lodash.merge (Some extraData) state)))
    as [[r db'] this'] eqn:Hsave.
  pose proof (rollback_commits schema opts db this patchId (Some extraData) state
                Hcount Hfound Hreplay r db' this' Hsave) as Hroll.
  split_and!; try done.
  - by exists r, db', this'.
  - intros field Hf. by rewrite merge_lookup, Hf.
  - intros saved db1 data1 field value Hok Hf Hv [Hpath Hhid]%elem_of_difference.
    rewrite Hroll in Hok. injection Hok as -> -> -> _.
    destruct (save_settled schema opts _ _ _ _ _ Hsave)
      as [(e & [=] & _)|(_ & _ & Hdata & _)].
    rewrite Hdata, data_lookup, decide_False by done.
    cbn [set Document._doc].
    apply lookup_union_Some_l, map_lookup_filter_Some. split; [|done].
    by apply Hscalar.
Qed.

(** C10, as the plugin has it.  [_.merge(data, state)] writes into the
    object the caller passed: after the rollback, whether its save resolves
    or not, that object is the merge of the replayed state into it and
    holds, at every field of the state, the state's value merged into its
    own.  It is what it was exactly when it already held these values. *)
Theorem rollback_overwrites_data db this patchId extraData state :
  count (λ p, Patch.ref p = Document._id this ∧ patchId ≤ Patch._id p) db ≠ 1 →
  existsb (λ patch, Patch._id patch =? patchId)
    (sort_date (find (λ p, Patch.ref p = Document._id this ∧
                           Patch._id p ≤ patchId) db)) = true →
  replay ∅ (sort_date (find (λ p, Patch.ref p = Document._id this ∧
                                  Patch._id p ≤ patchId) db)) = Ok state →
  (∃ r db' this',
     rollback schema opts db this patchId (Some extraData) =
       (r, db', this', Some (lodash.merge (Some extraData) state))) ∧
  (∀ field value, state !! field = Some value →
     lodash.merge (Some extraData) state !! field =
       Some (lodash.mergeValue (extraData !! field) value)) ∧
  (lodash.merge (Some extraData) state = extraData ↔
   ∀ field value, state !! field = Some value →
     extraData !! field = Some (lodash.mergeValue (extraData !! field) value)).
Proof.
  intros Hcount Hfound Hreplay.
  destruct (save schema opts db
              (set schema this (lodash.merge (Some extraData) state)))
    as [[r db'] this'] eqn:Hsave.
  split_and!.
  - exists r, db', this'.
    exact (rollback_commits schema opts db this patchId (Some extraData) state
             Hcount Hfound Hreplay r db' this' Hsave).
  - intros field value Hf. by rewrite merge_lookup, Hf.
  - split.
    + intros Heq field value Hf. rewrite <- Heq at 1.
      by rewrite merge_lookup, Hf.
    + intros Hheld. apply map_eq. intros field. rewrite merge_lookup.
      cbn [default]. destruct (state !! field) as [value|] eqn:Hf; [|done].
      symmetry. by apply Hheld.
Qed.

End rollback_data_claims.

(** The rollback of the suite with extra data that names the tracked field:
    the saved title is the replayed one. *)
Lemma rollback_state_prevails_witness :
  ∃ saved db' data',
    rollback fixtures.PostSchema fixtures.PostOpts
      (mongoose.tick 5 fixtures.post_v3.1.2) fixtures.post_v3.2 3
      (Some {[ "title" := JStr "mine" ]}) = (Ok saved, db', saved, data') ∧
    data fixtures.PostSchema saved !! "title" = Some (JStr "version 2").
Proof.
  eexists _, _, _. split.
  - vm_compute. reflexivity.
  - refine (proj2 (proj2 (proj2 (proj2
      (rollback_state_prevails fixtures.PostSchema fixtures.PostOpts
         (mongoose.tick 5 fixtures.post_v3.1.2) fixtures.post_v3.2 3
         {[ "title" := JStr "mine" ]} {[ "title" := JStr "version 2" ]}
         _ _ _)))) _ _ _ "title" (JStr "version 2") _ _ _ _).
    + vm_compute. discriminate.
    + vm_compute. reflexivity.
    + vm_compute. reflexivity.
    + vm_compute. reflexivity.
    + vm_compute. reflexivity.
    + reflexivity.
    + compute_done.
Defined.

(** The same rollback: the extra data says "mine", the document is saved
    with the replayed "version 2". *)
Lemma extraData_does_not_prevail : ¬ extraData_prevails.
Proof.
  intros Hclaim.
  assert (Hsaved : ∃ saved,
    Document._doc saved !! "title" = Some (JStr "mine") ∧
    Document._doc saved !! "title" = Some (JStr "version 2")).
  { eexists. split.
    - refine (Hclaim fixtures.PostSchema fixtures.PostOpts
        (mongoose.tick 5 fixtures.post_v3.1.2) fixtures.post_v3.2 3
        {[ "title" := JStr "mine" ]} {[ "title" := JStr "version 2" ]}
        _ _ _ _ _ "title" (JStr "mine") eq_refl _).
      + vm_compute. reflexivity.
      + vm_compute. reflexivity.
      + exists (JStr "version 2"). reflexivity.
    - vm_compute. reflexivity. }
  destruct Hsaved as (saved & Hmine & Hreplayed).
  rewrite Hmine in Hreplayed. discriminate Hreplayed.
Qed.

(** Extra data that names no field of the replayed state is extended by
    the state. *)
Lemma rollback_overwrites_data_witness :
  ∃ r db' this',
    rollback fixtures.PostSchema fixtures.PostOpts
      (mongoose.tick 5 fixtures.post_v3.1.2) fixtures.post_v3.2 3
      (Some {[ "user" := JNum 5 ]}) =
    (r, db', this',
     Some (lodash.merge (Some {[ "user" := JNum 5 ]})
                        {[ "title" := JStr "version 2" ]})).
Proof.
  refine (proj1 (rollback_overwrites_data fixtures.PostSchema
    fixtures.PostOpts (mongoose.tick 5 fixtures.post_v3.1.2)
    fixtures.post_v3.2 3 {[ "user" := JNum 5 ]}
    {[ "title" := JStr "version 2" ]} _ _ _)).
  - vm_compute. discriminate.
  - vm_compute. reflexivity.
  - vm_compute. reflexivity.
Defined.

(** Extra data that already holds the replayed title is what it was after
    the rollback. *)
Lemma extraData_may_stay : ¬ extraData_always_changes.
Proof.
  intros Hclaim.
  refine (Hclaim fixtures.PostSchema fixtures.PostOpts
    (mongoose.tick 5 fixtures.post_v3.1.2) fixtures.post_v3.2 3
    {[ "title" := JStr "version 2" ]} {[ "title" := JStr "version 2" ]}
    _ _ _ _ _ _ eq_refl).
  - vm_compute. reflexivity.
  - vm_compute. reflexivity.
  - intros Heq. apply (f_equal (lookup "title")) in Heq.
    vm_compute in Heq. discriminate Heq.
Qed.

(* ===================================================================== *)
(** * Options: cascading removal and the patch model's name *)
(* ===================================================================== *)

Section option_claims.
Import mongoose.

Variable opts : option object.

(** What [_.merge({}, defaultOptions, opts)] holds at each key. *)
Lemma options_lookup key :
  options opts !! key =
  match opts ≫= (.!! key) with
  | Some v => Some (lodash.mergeValue (defaultOptions !! key) v)
  | None => defaultOptions !! key
  end.
Proof.
  unfold options. rewrite merge_empty.
  destruct opts as [o|]; [|done]. by rewrite merge_lookup.
Qed.

Lemma remove_patches_fold l : ∀ db,
  patches (foldl (λ db patch, remove_patch patch db) db l) =
  filter (λ p, Patch._id p ∉ Patch._id <$> l) (patches db).
Proof.
  induction l as [|q l IH]; intros db.
  - cbn. symmetry. apply filter_all, Forall_forall. intros p _. apply not_elem_of_nil.
  - cbn [foldl]. rewrite IH. cbn [remove_patch patches].
    rewrite list_filter_filter. apply list_filter_iff. intros p.
    rewrite fmap_cons, not_elem_of_cons. tauto.
Qed.

(** C8.  [removePatches] is [true] when the options do not supply it.
    With the option enabled, removing a document resolves and leaves no
    patch record whose [ref] is the document's id, and the document is
    gone from its collection; with the option disabled, the removal leaves
    the patch collection exactly as it was. *)
Theorem cascading_removal db this :
  (opts ≫= (.!! "removePatches") = None →
   options opts !! "removePatches" = Some (JBool true)) ∧
  (truthy (options opts !! "removePatches") = true →
   ∃ db', remove opts db this = (Ok this, db') ∧
     find (λ p, Patch.ref p = Document._id this) db' = [] ∧
     documents db' !! Document._id this = None) ∧
  (truthy (options opts !! "removePatches") = false →
   ∃ db', remove opts db this = (Ok this, db') ∧
     patches db' = patches db ∧
     documents db' !! Document._id this = None).
Proof.
  split_and!.
  - intros Hnone. by rewrite options_lookup, Hnone.
  - intros Hon. unfold remove, pre_remove. rewrite Hon. cbn [negb].
    eexists. split; [reflexivity|]. split; [|apply lookup_delete_eq].
    unfold find at 1. cbn [delete_document patches].
    rewrite remove_patches_fold, list_filter_filter.
    apply filter_none, Forall_forall. intros p Hp [Href Hid].
    apply Hid, list_elem_of_fmap. exists p. split; [done|].
    by apply list_elem_of_filter.
  - intros Hoff. unfold remove, pre_remove. rewrite Hoff. cbn [negb].
    eexists. split; [reflexivity|]. split; [done|apply lookup_delete_eq].
Qed.

Lemma options_modelName :
  options opts !! "modelName" = opts ≫= (.!! "modelName").
Proof.
  rewrite options_lookup. destruct (opts ≫= _) as [v|]; [|done].
  f_equal. by apply mergeValue_fresh.
Qed.

(** C9, as the plugin has it.  The name of the patch model is the option
    [modelName] when it is supplied with a truthy value, and the document
    model's name followed by "Patches" otherwise; an option called
    [patchModelName] is not read. *)
Theorem patch_model_name model_modelName modelNames :
  (getPatchModel opts model_modelName modelNames).2 =
  match opts ≫= (.!! "modelName") with
  | Some name =>
      if truthy (Some name) then name
      else JStr (model_modelName +:+ "Patches")
  | None => JStr (model_modelName +:+ "Patches")
  end.
Proof.
  unfold getPatchModel. cbn [snd]. rewrite options_modelName.
  by destruct (opts ≫= _).
Qed.

End option_claims.

(** The post of the suite, removed with the default options: its three
    patches are gone.  The comment's options switch the cascade off. *)
Lemma cascading_removal_witness :
  options fixtures.PostOpts !! "removePatches" = Some (JBool true) ∧
  (∃ db', remove fixtures.PostOpts fixtures.post_v3.1.2 fixtures.post_v3.2 =
            (Ok fixtures.post_v3.2, db') ∧
          mongoose.find (λ p, Patch.ref p = 1) db' = []) ∧
  (∃ db', remove fixtures.CommentOpts fixtures.comment_v3.1.2
            fixtures.comment_v3.2 = (Ok fixtures.comment_v3.2, db') ∧
          mongoose.patches db' = mongoose.patches fixtures.comment_v3.1.2).
Proof.
  split_and!.
  - apply (cascading_removal fixtures.PostOpts fixtures.post_v3.1.2
             fixtures.post_v3.2). reflexivity.
  - destruct (proj1 (proj2 (cascading_removal fixtures.PostOpts
                fixtures.post_v3.1.2 fixtures.post_v3.2)))
      as (db' & Hremove & Hnone & _); [vm_compute; reflexivity|].
    exists db'. split; [exact Hremove|exact Hnone].
  - destruct (proj2 (proj2 (cascading_removal fixtures.CommentOpts
                fixtures.comment_v3.1.2 fixtures.comment_v3.2)))
      as (db' & Hremove & Hsame & _); [vm_compute; reflexivity|].
    exists db'. split; [exact Hremove|exact Hsame].
Defined.

(** Options that supply [patchModelName]: the model is still named after
    the document model. *)
Lemma patchModelName_is_not_read : ¬ patchModelName_names_the_model.
Proof.
  intros Hclaim.
  pose proof (Hclaim {[ "patchModelName" := JStr "History" ]} "Post" []) as H.
  vm_compute in H. discriminate H.
Qed.

(* ===================================================================== *)
(** * Further properties of the plugin *)
(* ===================================================================== *)

Section projection_and_snapshot.
Import mongoose.

Variable schema : Schema.
Variable opts : option object.

(** [data()] depends on nothing but the values of the keys that are not
    stripped: two instances that agree on them, whatever their [_id],
    timestamps and version key, have the same data. *)
Theorem data_ignores_housekeeping this that :
  (∀ key, key ∉ hidden schema →
     Document._doc this !! key = Document._doc that !! key) →
  data schema this = data schema that.
Proof.
  intros Hagree. apply map_eq. intros key. rewrite !data_lookup.
  case_decide; [done|]. by apply Hagree.
Qed.

(** A document found in the database carries, from the post-init hook, a
    snapshot equal to its data; saved at once it resolves and appends no
    patch. *)
Theorem loaded_document_saves_clean db _id raw :
  documents db !! _id = Some raw →
  ∃ this saved db',
    findById schema db _id = Some this ∧
    Document._original this = Some (data schema this) ∧
    save schema opts db this = (Ok saved, db', saved) ∧
    patches db' = patches db.
Proof.
  intros Hraw. unfold findById. rewrite Hraw. cbn [fmap option_fmap option_map].
  eexists _, _, _. split; [reflexivity|]. split; [reflexivity|].
  split.
  - exact (save_unchanged schema opts db (init schema _id raw)
             (data schema (init schema _id raw)) eq_refl (compare_same _)).
  - reflexivity.
Qed.

(** The post-save hook refreshes the snapshot: a document that a save has
    resolved with, saved again in any later state of the database, appends
    no patch. *)
Theorem saved_document_saves_clean db this saved db1 later :
  save schema opts db this = (Ok saved, db1, saved) →
  ∃ again db2,
    save schema opts later saved = (Ok again, db2, again) ∧
    patches db2 = patches later.
Proof.
  intros Hsave.
  destruct (save_settled schema opts _ _ _ _ _ Hsave)
    as [(e & [=] & _)|(_ & Hsnap & _ & _ & Hnew & _)].
  assert (Hb : baseline saved = Some (data schema saved)).
  { unfold baseline. by rewrite Hnew. }
  eexists _, _. split.
  - exact (save_unchanged schema opts later saved (data schema saved) Hb
             (compare_same _)).
  - reflexivity.
Qed.

End projection_and_snapshot.

(** The post saved a second time has a later [updatedAt] and the same
    data. *)
Lemma data_ignores_housekeeping_witness :
  Document._doc fixtures.post_foo_again.2 !! "updatedAt" ≠
    Document._doc fixtures.post_foo.2 !! "updatedAt" ∧
  data fixtures.PostSchema fixtures.post_foo_again.2 =
    data fixtures.PostSchema fixtures.post_foo.2.
Proof.
  split; [vm_compute; discriminate|].
  apply data_ignores_housekeeping. intros key Hkey.
  assert (Hdoc : Document._doc fixtures.post_foo_again.2 =
                 <["updatedAt" := JNum 1005]> (Document._doc fixtures.post_foo.2))
    by (vm_compute; reflexivity).
  rewrite Hdoc. apply lookup_insert_ne. intros <-.
  apply Hkey. compute_done.
Defined.

(** The post of the suite found by its id and saved: still one patch. *)
Lemma loaded_document_saves_clean_witness :
  ∃ this saved db',
    findById fixtures.PostSchema fixtures.post_foo.1.2 1 = Some this ∧
    save fixtures.PostSchema fixtures.PostOpts fixtures.post_foo.1.2 this =
      (Ok saved, db', saved) ∧
    mongoose.patches db' = mongoose.patches fixtures.post_foo.1.2.
Proof.
  assert (Hraw : ∃ raw,
    mongoose.documents fixtures.post_foo.1.2 !! 1 = Some raw).
  { eexists. vm_compute. reflexivity. }
  destruct Hraw as [raw Hraw].
  destruct (loaded_document_saves_clean fixtures.PostSchema fixtures.PostOpts
              fixtures.post_foo.1.2 1 raw Hraw)
    as (this & saved & db' & Hfind & _ & Hsave & Hpatches).
  exists this, saved, db'. split; [exact Hfind|]. split; [exact Hsave|exact Hpatches].
Defined.

(** The created post, saved again five milliseconds later. *)
Lemma saved_document_saves_clean_witness :
  ∃ again db2,
    save fixtures.PostSchema fixtures.PostOpts
      (mongoose.tick 5 fixtures.post_foo.1.2) fixtures.post_foo.2 =
      (Ok again, db2, again) ∧
    mongoose.patches db2 = mongoose.patches (mongoose.tick 5 fixtures.post_foo.1.2).
Proof.
  refine (saved_document_saves_clean fixtures.PostSchema fixtures.PostOpts
            fixtures.post_new.2 fixtures.post_new.1 fixtures.post_foo.2
            fixtures.post_foo.1.2 (mongoose.tick 5 fixtures.post_foo.1.2) _).
  vm_compute. reflexivity.
Defined.


Section options_and_schema.
Import mongoose.

(** Merging into an empty object copies the source, like merging into a
    value that is not an object. *)
Lemma mergeValue_into_scalar_or_empty objValue v :
  (∀ o, objValue = Some (JObj o) → o = ∅) →
  lodash.mergeValue objValue v = v.
Proof.
  intros Hempty. destruct v as [| | | |m]; try done.
  cbn [lodash.mergeValue]. f_equal. apply map_eq. intros j.
  rewrite map_fold_insert_lookup.
  assert ((match objValue with Some (JObj o) => o | _ => ∅ end) = ∅) as ->.
  { destruct objValue as [[| | | |o]|]; try done. by apply Hempty. }
  rewrite lookup_empty. destruct (m !! j) as [w|]; [|done].
  f_equal. by apply mergeValue_fresh.
Qed.

(** Every option the caller supplies is the option the plugin reads, and
    what the caller leaves out has its default: [includes] empty and
    [removePatches] true, nothing else. *)
Theorem supplied_options_win (o : object) key :
  options (Some o) !! key =
  match o !! key with
  | Some v => Some v
  | None => defaultOptions !! key
  end ∧
  options None !! key = defaultOptions !! key ∧
  defaultOptions !! key =
    (if decide (key = "includes") then Some (JObj ∅)
     else if decide (key = "removePatches") then Some (JBool true)
     else None).
Proof.
  split_and!.
  - rewrite options_lookup. cbn [mbind option_bind].
    destruct (o !! key) as [v|]; [|done].
    f_equal. apply mergeValue_into_scalar_or_empty. intros d Hd.
    unfold defaultOptions in Hd.
    destruct (decide (key = "includes")) as [->|Hinc].
    + rewrite lookup_insert_eq in Hd. by injection Hd as <-.
    + rewrite lookup_insert_ne in Hd by done.
      destruct (decide (key = "removePatches")) as [->|Hrem].
      * by rewrite lookup_singleton_eq in Hd.
      * by rewrite lookup_singleton_ne in Hd.
  - by rewrite options_lookup.
  - unfold defaultOptions. repeat case_decide; subst.
    + by rewrite lookup_insert_eq.
    + by rewrite lookup_insert_ne, lookup_singleton_eq.
    + by rewrite lookup_insert_ne, lookup_singleton_ne.
Qed.

(** The schema of the patch collection: an included field is declared as
    in the options but for its [from], which is dropped, so it is required
    exactly when the option says so; it replaces a built-in field of the
    same name.  The built-in fields [date], [ops] and [ref] are required;
    no other field is declared. *)
Theorem patch_schema_fields (o : object) name :
  (∀ type, includes o !! name = Some type →
     createPatchSchema o !! name = Some (lodash.omit type "from") ∧
     (∀ t, type = JObj t → t !! "from" = None →
        createPatchSchema o !! name = Some type) ∧
     required (lodash.omit type "from") = required type) ∧
  (includes o !! name = None →
     (name ∈ ["date"; "ops"; "ref"] →
        ∃ def, createPatchSchema o !! name = Some def ∧ required def = true) ∧
     (name ∉ ["date"; "ops"; "ref"] → createPatchSchema o !! name = None)).
Proof.
  unfold createPatchSchema. rewrite map_fold_insert_lookup. split.
  - intros type ->. split_and!; [done| |].
    + intros t -> Hfrom. cbn. by rewrite delete_id.
    + destruct type as [| | | |t]; try done. cbn.
      by rewrite lookup_delete_ne.
  - intros ->. split.
    + intros Hin. repeat (apply elem_of_cons in Hin as [->|Hin]);
        [| | |by apply not_elem_of_nil in Hin];
        eexists; (split; [reflexivity|reflexivity]).
    + intros Hout.
      rewrite !lookup_insert_ne, lookup_singleton_ne; [done|..];
        intros <-; apply Hout; set_solver.
Qed.

Variable opts : option object.

(** [getPatchModel] with a name that is a string, and included fields the
    patch schema can be built with, registers the patch model on the
    connection when its name is not there yet, after the names already
    registered, and registers nothing the next time. *)
Theorem patch_model_registered_once model_modelName modelNames :
  valid_includes opts = true →
  is_string (getPatchModel opts model_modelName modelNames).2 = true →
  let registered := (getPatchModel opts model_modelName modelNames).1 in
  let modelName := (getPatchModel opts model_modelName modelNames).2 in
  existsb (strict_eqb modelName) registered = true ∧
  (registered = modelNames ∨ registered = modelNames ++ [modelName]) ∧
  getPatchModel opts model_modelName registered = (registered, modelName).
Proof.
  unfold getPatchModel. cbn [fst snd].
  set (modelName := js_or _ _). intros _ Hname. cbn zeta.
  rewrite Hname. cbn [negb]. rewrite !orb_false_r.
  destruct (existsb (strict_eqb modelName) modelNames) eqn:Hreg.
  - split_and!; [done|by left|by rewrite Hreg].
  - assert (Hin : existsb (strict_eqb modelName) (modelNames ++ [modelName]) = true).
    { rewrite existsb_app. cbn. rewrite strict_eqb_refl by (by destruct modelName).
      by rewrite orb_true_r. }
    split_and!; [done|by right|by rewrite Hin].
Qed.

End options_and_schema.

(** The comment's options switch the cascade off; the post's options
    leave it at its default. *)
Lemma supplied_options_win_witness :
  options fixtures.CommentOpts !! "removePatches" = Some (JBool false) ∧
  options fixtures.PostOpts !! "removePatches" = Some (JBool true).
Proof.
  unfold fixtures.CommentOpts, fixtures.PostOpts. split.
  - rewrite (proj1 (supplied_options_win _ "removePatches")).
    vm_compute. reflexivity.
  - rewrite (proj1 (supplied_options_win _ "removePatches")).
    vm_compute. reflexivity.
Defined.

(** The patch model of [Post]: registered as "PostPatches" by the first
    call, found by the second. *)
Lemma patch_model_registered_once_witness :
  getPatchModel fixtures.PostOpts "Post" [] =
    ([JStr "PostPatches"], JStr "PostPatches") ∧
  getPatchModel fixtures.PostOpts "Post" [JStr "PostPatches"] =
    ([JStr "PostPatches"], JStr "PostPatches").
Proof.
  split; [vm_compute; reflexivity|].
  refine (proj2 (proj2 (patch_model_registered_once fixtures.PostOpts
                          "Post" [] _ _))); vm_compute; reflexivity.
Defined.

Section histories.
Import mongoose.

Variable schema : Schema.
Variable opts : option object.

(** Nothing is appended. *)
Ltac nothing_appended :=
  exists []; cbn; rewrite app_nil_r;
  split_and!; [done | lia | by apply Forall_nil | done ..].

Lemma replay_app state before after :
  replay state (before ++ after) =
  (state' ←ᵣ replay state before; replay state' after).
Proof.
  revert state. induction before as [|p before IH]; intros state; [done|].
  cbn. destruct (jsonpatch.apply state (Patch.ops p)); cbn; auto.
Qed.

(** What a save does to the database, whatever the database answers the
    write with: the patch collection is extended by at most one record,
    which refers to the saved document and has the fresh id; no document
    but the saved one is written. *)
Lemma saving_frame answer db this :
  ∃ new,
    patches (saving schema opts answer db this).1.2 = patches db ++ new ∧
    length new ≤ 1 ∧
    Forall (λ p, Patch.ref p = Document._id this ∧
                 Patch._id p = next_oid db ∧ Patch.date p = now db) new ∧
    ∀ other, other ≠ Document._id this →
      documents (saving schema opts answer db this).1.2 !! other =
      documents db !! other.
Proof.
  unfold saving, pre_save, create.
  destruct (baseline this) as [before|]; [|nothing_appended].
  destruct (jsonpatch.compare before (data schema this)) as [|o ops].
  - destruct answer as [e|]; [nothing_appended|].
    exists []. cbn. rewrite app_nil_r.
    split_and!; [done | lia | by apply Forall_nil |].
    intros other Hother. by rewrite lookup_insert_ne.
  - destruct (missing _ _); [|nothing_appended].
    destruct answer as [e|]; eexists [_]; cbn;
      (split_and!; [done | lia | by repeat constructor |]); [done|].
    intros other Hother. by rewrite lookup_insert_ne.
Qed.

(** The patches of a document replay to its snapshot, and a save keeps it
    so.  For a plugin installed without included fields and with a patch
    model that can be registered, and for data whose keys are free of [~]
    and [/] and whose values have the types the baseline has them in: when
    the history of the document replays to the baseline of
    the diff (the snapshot, or the empty object for a new document without
    patches), the history after a resolved save replays to the data of the
    saved document, which is its new snapshot. *)
Theorem save_extends_history db this before saved db' :
  includes (options opts) = ∅ →
  registrable opts = true →
  jsonpatch.plain (JObj before) = true →
  jsonpatch.plain (JObj (data schema this)) = true →
  same_type (JObj before) (JObj (data schema this)) = true →
  baseline this = Some before →
  replay ∅ (find (λ p, Patch.ref p = Document._id this) db) = Ok before →
  save schema opts db this = (Ok saved, db', saved) →
  replay ∅ (find (λ p, Patch.ref p = Document._id saved) db') =
    Ok (data schema saved) ∧
  baseline saved = Some (data schema saved) ∧
  data schema saved = data schema this.
Proof.
  intros _ _ Hpb Hpd _ Hb Hreplay Hsave.
  destruct (save_settled schema opts _ _ _ _ _ Hsave)
    as [(e & [=] & _)|(_ & Hsnap & Hdata & Hid & Hnew & base & Hbase & Hpatches)].
  rewrite Hb in Hbase. injection Hbase as <-.
  split_and!; [|unfold baseline; by rewrite Hnew|done].
  unfold find. rewrite Hpatches, filter_app, replay_app, Hid.
  fold (find (λ p, Patch.ref p = Document._id this) db). rewrite Hreplay.
  cbn [rbind]. rewrite Hdata. unfold appended.
  destruct (jsonpatch.compare before (data schema this)) as [|o ops] eqn:Hc.
  - apply compare_nil in Hc as ->. done.
  - assert (Happ : jsonpatch.apply before (o :: ops) = Ok (data schema this))
      by (rewrite <- Hc; by apply compare_apply).
    rewrite filter_cons_True, filter_nil by done. unfold replay.
    cbn [created Patch.ops assemble data_ops]. by rewrite Happ.
Qed.

(** A save never rewrites history.  Unless an included field is itself
    named [ref], and whatever the outcome of the save and the answer of the
    database to the write: the patch collection afterwards is the one
    before followed by at most one record for the saved document, so the
    patches of every other document are what they were, and so are the
    other documents. *)
Theorem save_appends_only answer db this :
  includes (options opts) !! "ref" = None →
  ∃ new,
    patches (saving schema opts answer db this).1.2 = patches db ++ new ∧
    length new ≤ 1 ∧
    Forall (λ p, Patch.ref p = Document._id this) new ∧
    (∀ other, other ≠ Document._id this →
       find (λ p, Patch.ref p = other) (saving schema opts answer db this).1.2 =
       find (λ p, Patch.ref p = other) db) ∧
    (∀ other, other ≠ Document._id this →
       documents (saving schema opts answer db this).1.2 !! other =
       documents db !! other).
Proof.
  intros _.
  destruct (saving_frame answer db this) as (new & Hpatches & Hlen & Hnew & Hdocs).
  exists new. split_and!; try done.
  - eapply Forall_impl; [exact Hnew|]. by intros p [? _].
  - intros other Hother. unfold find. rewrite Hpatches, filter_app.
    rewrite (filter_none _ new), app_nil_r; [done|].
    eapply Forall_impl; [exact Hnew|]. intros p [-> _]. done.
Qed.


(** A rollback whose save is rejected has changed the instance all the
    same: the merged state was set on it before the save.  When the patch
    for the rolled-back document fails validation, the rollback rejects
    with that error and the database is what it was, but the instance is
    the document with the state set, and the extra data is merged. *)
Theorem rollback_rejection_keeps_set db this patchId extraData state before :
  count (λ p, Patch.ref p = Document._id this ∧ patchId ≤ Patch._id p) db ≠ 1 →
  existsb (λ patch, Patch._id patch =? patchId)
    (sort_date (find (λ p, Patch.ref p = Document._id this ∧
                           Patch._id p ≤ patchId) db)) = true →
  replay ∅ (sort_date (find (λ p, Patch.ref p = Document._id this ∧
                                  Patch._id p ≤ patchId) db)) = Ok state →
  baseline (set schema this (lodash.merge extraData state)) = Some before →
  jsonpatch.compare before
    (data schema (set schema this (lodash.merge extraData state))) ≠ [] →
  missing (createPatchSchema (options opts))
    (assemble schema opts (set schema this (lodash.merge extraData state))
       (jsonpatch.compare before
          (data schema (set schema this (lodash.merge extraData state)))))
    ≠ [] →
  ∃ paths,
    rollback schema opts db this patchId extraData =
    (Err (ValidationError paths), db,
     set schema this (lodash.merge extraData state),
     const (lodash.merge extraData state) <$> extraData).
Proof.
  intros Hcount Hfound Hreplay Hb Hops Hmissing.
  destruct (save_rejected schema opts db _ before _ Hb eq_refl Hops Hmissing)
    as [paths Hsave].
  exists paths.
  exact (rollback_commits schema opts db this patchId extraData state
           Hcount Hfound Hreplay _ _ _ Hsave).
Qed.

End histories.

(** The post of the suite from version 2 to version 3: its three patches
    replay to version 3. *)
Lemma save_extends_history_witness :
  replay ∅ (mongoose.find (λ p, Patch.ref p = 1) fixtures.post_v3.1.2) =
    Ok {[ "title" := JStr "version 3" ]} ∧
  length (mongoose.find (λ p, Patch.ref p = 1) fixtures.post_v3.1.2) = 3.
Proof.
  split; [|vm_compute; reflexivity].
  pose (edited := mongoose.set fixtures.PostSchema fixtures.post_v2.2
                    {[ "title" := JStr "version 3" ]}).
  destruct (save_extends_history fixtures.PostSchema fixtures.PostOpts
              (mongoose.tick 5 fixtures.post_v2.1.2) edited
              {[ "title" := JStr "version 2" ]}
              fixtures.post_v3.2 fixtures.post_v3.1.2)
    as (Hreplay & _ & _).
  - vm_compute. reflexivity.
  - vm_compute. reflexivity.
  - vm_compute. reflexivity.
  - vm_compute. reflexivity.
  - vm_compute. reflexivity.
  - vm_compute. reflexivity.
  - vm_compute. reflexivity.
  - vm_compute. reflexivity.
  - etransitivity; [|etransitivity; [exact Hreplay|]];
      vm_compute; reflexivity.
Defined.

(** The rejected save of the comment without a user: nothing is appended. *)
Lemma save_appends_only_witness :
  ∃ new,
    mongoose.patches
      (saving fixtures.CommentSchema fixtures.CommentOpts None
         fixtures.comment_anonymous.2 fixtures.comment_anonymous.1).1.2 =
    mongoose.patches fixtures.comment_anonymous.2 ++ new ∧
    length new ≤ 1.
Proof.
  destruct (save_appends_only fixtures.CommentSchema fixtures.CommentOpts None
              fixtures.comment_anonymous.2 fixtures.comment_anonymous.1)
    as (new & Hpatches & Hlen & _); [vm_compute; reflexivity|].
  exists new. split; [exact Hpatches | exact Hlen].
Defined.

(** The comment of the suite, found again and rolled back to its second
    patch without a user: the rollback is rejected, the database still
    holds "comm 3", the instance reads "comm 2". *)
Lemma rollback_rejection_keeps_set_witness :
  ∃ paths this',
    rollback fixtures.CommentSchema fixtures.CommentOpts
      (mongoose.tick 5 fixtures.comment_v3.1.2) fixtures.comment_loaded 3 None =
    (Err (ValidationError paths), mongoose.tick 5 fixtures.comment_v3.1.2,
     this', None) ∧
    Document._doc this' !! "text" = Some (JStr "comm 2") ∧
    Document._doc fixtures.comment_loaded !! "text" = Some (JStr "comm 3").
Proof.
  destruct (rollback_rejection_keeps_set fixtures.CommentSchema
              fixtures.CommentOpts (mongoose.tick 5 fixtures.comment_v3.1.2)
              fixtures.comment_loaded 3 None {[ "text" := JStr "comm 2" ]}
              {[ "text" := JStr "comm 3" ]})
    as [paths Hroll].
  - vm_compute. discriminate.
  - vm_compute. reflexivity.
  - vm_compute. reflexivity.
  - vm_compute. reflexivity.
  - vm_compute. discriminate.
  - vm_compute. discriminate.
  - exists paths. eexists. split; [exact Hroll|].
    split; vm_compute; reflexivity.
Defined.

Section order.
Import mongoose.

Variable schema : Schema.
Variable opts : option object.

Lemma wf_db_unique db p q :
  wf_db db → p ∈ patches db → q ∈ patches db →
  Patch._id p = Patch._id q → p = q.
Proof.
  intros (Hid & _ & _). induction Hid as [|r l _ IH Hr]; intros Hp Hq Heq.
  - by apply not_elem_of_nil in Hp.
  - rewrite Forall_forall in Hr.
    apply elem_of_cons in Hp as [->|Hp], Hq as [->|Hq]; auto.
    + specialize (Hr _ Hq). lia.
    + specialize (Hr _ Hp). lia.
Qed.



End order.


Section patch_shape.
Import mongoose jsonpatch.

Lemma concat_single {A B} (f : string * A → list B) (l : list (string * A)) k v :
  NoDup l.*1 →
  (k, v) ∈ l →
  (∀ j w, (j, w) ∈ l → j ≠ k → f (j, w) = []) →
  concat (f <$> l) = f (k, v).
Proof.
  induction l as [|[j w] l IH]; intros Hnd Hin Hnil.
  - by apply not_elem_of_nil in Hin.
  - rewrite fmap_cons in Hnd. apply NoDup_cons in Hnd as [Hj Hnd]. cbn.
    apply elem_of_cons in Hin as [[= -> ->]|Hin].
    + rewrite concat_nil_pointwise, app_nil_r; [done|].
      apply Forall_forall. intros [j' w'] Hin'. apply Hnil; [by right|].
      intros ->. apply Hj, list_elem_of_fmap. by exists (j, w').
    + rewrite Hnil, IH; [done|done|done| |by left|].
      * intros j' w' Hin' Hne. apply Hnil; [by right|done].
      * intros ->. apply Hj, list_elem_of_fmap. by exists (k, v).
Qed.

(** The diff of an object and the same object with one property set to a
    value that is not an object and not the one it has: a [replace] when
    the property exists, an [add] when it does not. *)
Lemma compare_insert (tree : object) k w :
  is_object w = false →
  tree !! k ≠ Some w →
  compare tree (<[k := w]> tree) =
  [match tree !! k with
   | Some _ => Replace [escapePathComponent k] w
   | None => Add [escapePathComponent k] w
   end].
Proof.
  intros Hw Hne. unfold compare. rewrite generate_unfold. cbn zeta.
  rewrite bool_decide_eq_true_2 by (rewrite dom_insert_L; set_solver).
  cbn [andb].
  assert (Hkeep : ∀ j ov, tree !! j = Some ov → j ≠ k →
            change (<[k := w]> tree) [] (j, ov) = []).
  { intros j ov Hj Hjk. unfold change. cbn [fst snd].
    rewrite lookup_insert_ne, Hj by done.
    destruct (is_object ov) eqn:Hobj; cbn [andb].
    - apply generate_same.
    - by rewrite strict_eqb_refl. }
  destruct (tree !! k) as [v|] eqn:Hk.
  - rewrite map_size_insert_Some, Nat.eqb_refl by done.
    rewrite (concat_single _ _ k v).
    + unfold change. cbn [fst snd app]. rewrite lookup_insert_eq.
      rewrite Hw, andb_false_r.
      destruct (strict_eqb v w) eqn:Heq; [|done].
      apply strict_eqb_eq in Heq as ->. done.
    + rewrite fmap_reverse, reverse_Permutation. apply NoDup_fst_map_to_list.
    + by apply elem_of_reverse, elem_of_map_to_list.
    + intros j ov Hin%elem_of_reverse%elem_of_map_to_list Hjk. by apply Hkeep.
  - rewrite map_size_insert_None by done.
    destruct (S (size tree) =? size tree) eqn:Hsize;
      [apply Nat.eqb_eq in Hsize; lia|].
    rewrite concat_nil_pointwise.
    + cbn [app]. rewrite (concat_single _ _ k w).
      * unfold addition. cbn [fst snd app]. by rewrite Hk.
      * apply NoDup_fst_map_to_list.
      * apply elem_of_map_to_list, lookup_insert_eq.
      * intros j ov Hin%elem_of_map_to_list Hjk. unfold addition. cbn [fst snd].
        rewrite lookup_insert_ne in Hin by done. by rewrite Hin.
    + apply Forall_reverse, Forall_forall.
      intros [j ov] Hin%elem_of_map_to_list. apply Hkeep; [done|].
      intros ->. congruence.
Qed.

Variable schema : Schema.
Variable opts : option object.

(** The patch of a one-field update.  A saved document whose data differs
    from its snapshot in one field, which now holds a string where the
    snapshot had another string or nothing, gets, when it is saved by a
    plugin installed without included fields and with a patch model that
    can be registered, exactly one new patch with exactly one operation: a
    [replace] of that field when the snapshot had it, an [add] when it had
    not. *)
Theorem one_field_update_patch db this orig field value :
  Document.isNew this = false →
  Document._original this = Some orig →
  data schema this = <[field := JStr value]> orig →
  (orig !! field = None ∨
   ∃ old, orig !! field = Some (JStr old) ∧ old ≠ value) →
  includes (options opts) = ∅ →
  registrable opts = true →
  ∃ saved db' patch,
    save schema opts db this = (Ok saved, db', saved) ∧
    patches db' = patches db ++ [patch] ∧
    Patch.ref patch = Document._id this ∧
    Patch.ops patch =
      [match orig !! field with
       | Some _ => Replace [escapePathComponent field] (JStr value)
       | None => Add [escapePathComponent field] (JStr value)
       end] ∧
    data schema saved = data schema this.
Proof.
  intros Hnew Horig Hdata Hold Hincl _.
  assert (Hb : baseline this = Some orig).
  { unfold baseline. by rewrite Hnew. }
  assert (Hc : compare orig (data schema this) =
               [match orig !! field with
                | Some _ => Replace [escapePathComponent field] (JStr value)
                | None => Add [escapePathComponent field] (JStr value)
                end]).
  { rewrite Hdata. apply compare_insert; [done|].
    destruct Hold as [-> | (old & -> & Hne)]; congruence. }
  eexists _, _, _. split.
  { refine (save_changed schema opts db this _ _ Hb Hc ltac:(done) _).
    by apply valid_without_includes. }
  split_and!; try done.
  exact (data_write schema this _).
Qed.

End patch_shape.

(** The update test of the suite: the post created with the title "foo",
    saved with the title "bar". *)
Lemma one_field_update_patch_witness :
  ∃ saved db' patch,
    save fixtures.PostSchema fixtures.PostOpts fixtures.post_foo.1.2
      (mongoose.set fixtures.PostSchema fixtures.post_foo.2
         {[ "title" := JStr "bar" ]}) = (Ok saved, db', saved) ∧
    mongoose.patches db' = mongoose.patches fixtures.post_foo.1.2 ++ [patch] ∧
    Patch.ops patch = [jsonpatch.Replace ["title"] (JStr "bar")].
Proof.
  destruct (one_field_update_patch fixtures.PostSchema fixtures.PostOpts
              fixtures.post_foo.1.2
              (mongoose.set fixtures.PostSchema fixtures.post_foo.2
                 {[ "title" := JStr "bar" ]})
              {[ "title" := JStr "foo" ]} "title" "bar")
    as (saved & db' & patch & Hsave & Hpatches & _ & Hops & _).
  - reflexivity.
  - vm_compute. reflexivity.
  - vm_compute. reflexivity.
  - right. exists "foo". split; [vm_compute; reflexivity | discriminate].
  - vm_compute. reflexivity.
  - vm_compute. reflexivity.
  - exists saved, db', patch. split; [exact Hsave|]. split; [exact Hpatches|].
    etransitivity; [exact Hops|]. vm_compute. reflexivity.
Defined.

Section installation.

(** The plugin cannot be plugged in twice: it is refused on a schema
    that has an instance method [data], and after it was plugged in the
    schema has one.  Nothing else is checked: on a schema without [data]
    it is plugged in whatever else is registered, the methods the schema
    had are still there, and its hooks come after the hooks that were
    already added. *)
Theorem plugin_only_once schema :
  ("data" ∈ methods schema →
   plugin schema = inl "conflicting instance method: `data`") ∧
  ("data" ∉ methods schema →
   ∃ plugged,
     plugin schema = inr plugged ∧
     methods schema ⊆ methods plugged ∧
     "rollback" ∈ methods plugged ∧
     post_hooks plugged = post_hooks schema ++ ["init"; "save"] ∧
     pre_hooks plugged = pre_hooks schema ++ ["remove"; "save"] ∧
     plugin plugged = inl "conflicting instance method: `data`").
Proof.
  unfold plugin. split.
  - intros Hdata. by rewrite decide_True.
  - intros Hdata. rewrite decide_False by done. eexists. split; [reflexivity|].
    cbn. split_and!; try done; [set_solver..|].
    rewrite decide_True; [done|set_solver].
Qed.

End installation.

(** The two schemas of the initialization tests: one with a [data] method
    of its own, one without. *)
Lemma plugin_only_once_witness :
  plugin {| methods := {[ "data" ]}; statics := ∅; getters := ∅;
            post_hooks := []; pre_hooks := [] |} =
    inl "conflicting instance method: `data`" ∧
  ∃ plugged,
    plugin {| methods := ∅; statics := ∅; getters := ∅;
              post_hooks := []; pre_hooks := [] |} = inr plugged ∧
    plugin plugged = inl "conflicting instance method: `data`".
Proof.
  split.
  - apply plugin_only_once. cbn. set_solver.
  - destruct (proj2 (plugin_only_once
        {| methods := ∅; statics := ∅; getters := ∅;
           post_hooks := []; pre_hooks := [] |}))
      as (plugged & Hplug & _ & _ & _ & _ & Hagain); [cbn; set_solver|].
    exists plugged. split; [exact Hplug|exact Hagain].
Defined.

Section foreign_patches.
Import mongoose.

Variable schema : Schema.
Variable opts : option object.

(** A document cannot be rolled back to a patch of another document: in an
    ordered collection the id of a patch that refers to another document
    is the id of none of the document's own patches, and the rollback
    rejects with a [RollbackError], database, instance and extra data
    unchanged. *)
Theorem rollback_to_foreign_patch_rejected db this foreign extraData :
  wf_db db →
  foreign ∈ patches db →
  Patch.ref foreign ≠ Document._id this →
  ∃ message,
    rollback schema opts db this (Patch._id foreign) extraData =
    (Err (RollbackError message), db, this, extraData).
Proof.
  intros Hwf Hin Href. unfold rollback, rolling_back.
  destruct (count _ db =? 1); [eauto|].
  rewrite target_not_found; [eauto|].
  intros p [[Hp _] Hmine]%list_elem_of_filter Hid.
  assert (p = foreign) as -> by by eapply wf_db_unique.
  congruence.
Qed.

End foreign_patches.

(** The first post of the suite rolled back to the patch of the second. *)
Lemma rollback_to_foreign_patch_rejected_witness :
  ∃ message,
    rollback fixtures.PostSchema fixtures.PostOpts fixtures.second_post.1.2
      fixtures.post_v3.2 6 None =
    (Err (RollbackError message), fixtures.second_post.1.2,
     fixtures.post_v3.2, None).
Proof.
  refine (rollback_to_foreign_patch_rejected fixtures.PostSchema
            fixtures.PostOpts fixtures.second_post.1.2 fixtures.post_v3.2
            {| Patch._id := 6; Patch.date := 1015;
               Patch.ops := [jsonpatch.Add ["title"] (JStr "other")];
               Patch.ref := 5; Patch.included := ∅ |} None _ _ _).
  - compute_done.
  - assert (Hlast : last (mongoose.patches fixtures.second_post.1.2) =
            Some {| Patch._id := 6; Patch.date := 1015;
                    Patch.ops := [jsonpatch.Add ["title"] (JStr "other")];
                    Patch.ref := 5; Patch.included := ∅ |})
      by (vm_compute; reflexivity).
    apply last_Some in Hlast as [l ->]. set_solver.
  - vm_compute. discriminate.
Defined.
